(** * The HeyGen realtime channel and the OpenAI -> HeyGen bridge

    A shallow embedding of [backend/src/heygen_websocket.ts]
    (class [HeyGenWebSocketClient]) and [backend/src/openai_heygen_bridge.ts]
    (class [OpenAIHeyGenBridge]).

    The two classes are event driven: every handler runs to completion before
    the next callback is dispatched.  A class instance is a record of its
    fields; the parts of the Node runtime a handler touches (sockets created
    by [new WebSocket], timers, the console, the bytes put on the wire, the
    clock and the random generator) are further fields of the same record, so
    that each method is a function on that record.  Methods that can raise are
    written in a small state-and-exception monad. *)

From Stdlib Require Import String Ascii List ZArith NArith Bool Lia.
From Stdlib Require Import Decimal DecimalString.
From Stdlib Require Import QArith.
Close Scope Q_scope.
Import ListNotations.
Open Scope string_scope.

(* ================================================================= *)
(** ** JavaScript values used by the two classes *)

Module JS.

(** [if (v)] on a value of type [string | null | undefined]: the empty
    string is falsy, like [null] and [undefined]. *)
Definition truthy (v : option string) : bool :=
  match v with
  | Some s => negb (String.eqb s "")
  | None => false
  end.

(** The string guarded by [if (v) { ... v ... }]. *)
Definition when_truthy (v : option string) : option string :=
  if truthy v then v else None.

(** [a || b] on such values. *)
Definition or (a b : option string) : option string :=
  if truthy a then a else b.

(** [s.substring(a, b)] for [0 <= a <= b]; indices are clamped to the
    length of [s]. *)
Definition substring (a b : nat) (s : string) : string :=
  String.substring a (b - a) s.

(** Template-literal rendering of a non-negative integer. *)
Definition number_toString (n : N) : string :=
  NilZero.string_of_uint (N.to_uint n).

Fixpoint all_chars (p : ascii -> bool) (s : string) : bool :=
  match s with
  | EmptyString => true
  | String c r => p c && all_chars p r
  end.

Definition is_digit (c : ascii) : bool :=
  let n := nat_of_ascii c in (48 <=? n)%nat && (n <=? 57)%nat.

Definition is_lower (c : ascii) : bool :=
  let n := nat_of_ascii c in (97 <=? n)%nat && (n <=? 122)%nat.

Definition is_upper (c : ascii) : bool :=
  let n := nat_of_ascii c in (65 <=? n)%nat && (n <=? 90)%nat.

Definition is_alnum (c : ascii) : bool :=
  is_digit c || is_lower c || is_upper c.

(** The digits [Number.prototype.toString(36)] writes. *)
Definition is_base36 (c : ascii) : bool := is_digit c || is_lower c.

End JS.

(* ================================================================= *)
(** ** Results of methods that may raise *)

Inductive Result (A : Type) : Type :=
| Ok (a : A)
| Err (message : string).
Arguments Ok {A} a.
Arguments Err {A} message.

(** A method of an object of type [S] returning an [A]: it yields the object
    as the call left it, together with the value or the exception. *)
Definition M (S A : Type) : Type := S -> Result A * S.

Definition ret {S A} (a : A) : M S A := fun s => (Ok a, s).

Definition throw {S A} (message : string) : M S A := fun s => (Err message, s).

Definition bind {S A B} (m : M S A) (k : A -> M S B) : M S B :=
  fun s =>
    match m s with
    | (Ok a, s') => k a s'
    | (Err e, s') => (Err e, s')
    end.

Definition modify {S} (f : S -> S) : M S unit := fun s => (Ok tt, f s).

Definition gets {S A} (f : S -> A) : M S A := fun s => (Ok (f s), s).

Declare Scope js_scope.
Delimit Scope js_scope with js.
Notation "x <- m ;; k" := (bind m (fun x => k))
  (at level 61, m at next level, right associativity) : js_scope.
Notation "m ;; k" := (bind m (fun _ => k))
  (at level 61, right associativity) : js_scope.

(** Console output: the method used and the fixed part of the message. *)
Inductive Level := console_log | console_warn | console_error.
Definition LogLine : Type := Level * string.

(* ================================================================= *)
(** ** heygen_websocket.ts *)

Module HeyGen.

(** What one call of [generateEventId] reads from the environment:
    [Date.now()], and the string [Math.random().toString(36)]. *)
Record Entropy := {
  Date_now : N;
  Math_random_toString36 : string
}.

(** [`${Date.now()}_${Math.random().toString(36).substring(2, 9)}`] *)
Definition generateEventId (e : Entropy) : string :=
  JS.number_toString (Date_now e) ++ "_"
    ++ JS.substring 2 9 (Math_random_toString36 e).

(** The form [{millisecond timestamp}_{7 alphanumeric characters}], as a
    test on an identifier: the text before the first underscore is a
    non-empty run of decimal digits and the text after it is seven
    alphanumeric characters. *)
Fixpoint split_underscore (s : string) : option (string * string) :=
  match s with
  | EmptyString => None
  | String c r =>
      if Ascii.eqb c "_" then Some (EmptyString, r)
      else match split_underscore r with
           | Some (p, q) => Some (String c p, q)
           | None => None
           end
  end.

Definition has_event_id_form (id : string) : bool :=
  match split_underscore id with
  | Some (stamp, suffix) =>
      negb (String.eqb stamp "") && JS.all_chars JS.is_digit stamp
      && Nat.eqb (String.length suffix) 7 && JS.all_chars JS.is_alnum suffix
  | None => false
  end.

(** [ws.readyState] *)
Inductive ReadyState := CONNECTING | OPEN | CLOSING | CLOSED.

Definition ReadyState_eqb (a b : ReadyState) : bool :=
  match a, b with
  | CONNECTING, CONNECTING | OPEN, OPEN
  | CLOSING, CLOSING | CLOSED, CLOSED => true
  | _, _ => false
  end.

(** The envelope [{type, event_id, audio?}] of the seven commands. *)
Record HeyGenWebSocketEvent := {
  type : string;
  event_id : string;
  audio : option string
}.

(** Notifications the client emits to its own listeners. *)
Inductive Emitted :=
| connected
| disconnected (code : Z).

Definition maxReconnectAttempts : Z := 5.
Definition reconnectDelay : Z := 1000.

(** The fields of [HeyGenWebSocketClient] that change after construction
    ([ws] holds the identity of a socket), followed by the runtime around
    the instance:
    - [sockets]: the sockets created by [connect] that have not yet
      reported 'close', with their [readyState]; every one of them carries
      the handlers [connect] registered, all bound to this instance;
    - [timeouts]: the delays of the pending reconnection callbacks;
    - [intervals]: the running [setInterval] timers;
    - [wire]: the messages handed to an open socket, oldest first;
    - [entropy], [ticks]: the clock and random values, and how many
      identifiers have been generated.
    [url], [sessionId] and [apiKey] are fixed at construction and read by
    nothing below; the endpoint is taken to be well formed, so that
    [new WebSocket] returns. *)
Record Client := mkClient {
  ws : option nat;
  reconnectAttempts : Z;
  isConnected : bool;
  heartbeatInterval : option nat;
  sockets : list (nat * ReadyState);
  next_socket : nat;
  timeouts : list Z;
  intervals : list nat;
  next_timer : nat;
  wire : list (nat * HeyGenWebSocketEvent);
  console : list LogLine;
  emitted : list Emitted;
  entropy : nat -> Entropy;
  ticks : nat
}.

Definition set_ws v c :=
  mkClient v (reconnectAttempts c) (isConnected c) (heartbeatInterval c)
    (sockets c) (next_socket c) (timeouts c) (intervals c) (next_timer c)
    (wire c) (console c) (emitted c) (entropy c) (ticks c).
Definition set_reconnectAttempts v c :=
  mkClient (ws c) v (isConnected c) (heartbeatInterval c)
    (sockets c) (next_socket c) (timeouts c) (intervals c) (next_timer c)
    (wire c) (console c) (emitted c) (entropy c) (ticks c).
Definition set_isConnected v c :=
  mkClient (ws c) (reconnectAttempts c) v (heartbeatInterval c)
    (sockets c) (next_socket c) (timeouts c) (intervals c) (next_timer c)
    (wire c) (console c) (emitted c) (entropy c) (ticks c).
Definition set_heartbeatInterval v c :=
  mkClient (ws c) (reconnectAttempts c) (isConnected c) v
    (sockets c) (next_socket c) (timeouts c) (intervals c) (next_timer c)
    (wire c) (console c) (emitted c) (entropy c) (ticks c).
Definition set_sockets v c :=
  mkClient (ws c) (reconnectAttempts c) (isConnected c) (heartbeatInterval c)
    v (next_socket c) (timeouts c) (intervals c) (next_timer c)
    (wire c) (console c) (emitted c) (entropy c) (ticks c).
Definition set_next_socket v c :=
  mkClient (ws c) (reconnectAttempts c) (isConnected c) (heartbeatInterval c)
    (sockets c) v (timeouts c) (intervals c) (next_timer c)
    (wire c) (console c) (emitted c) (entropy c) (ticks c).
Definition set_timeouts v c :=
  mkClient (ws c) (reconnectAttempts c) (isConnected c) (heartbeatInterval c)
    (sockets c) (next_socket c) v (intervals c) (next_timer c)
    (wire c) (console c) (emitted c) (entropy c) (ticks c).
Definition set_intervals v c :=
  mkClient (ws c) (reconnectAttempts c) (isConnected c) (heartbeatInterval c)
    (sockets c) (next_socket c) (timeouts c) v (next_timer c)
    (wire c) (console c) (emitted c) (entropy c) (ticks c).
Definition set_next_timer v c :=
  mkClient (ws c) (reconnectAttempts c) (isConnected c) (heartbeatInterval c)
    (sockets c) (next_socket c) (timeouts c) (intervals c) v
    (wire c) (console c) (emitted c) (entropy c) (ticks c).
Definition set_wire v c :=
  mkClient (ws c) (reconnectAttempts c) (isConnected c) (heartbeatInterval c)
    (sockets c) (next_socket c) (timeouts c) (intervals c) (next_timer c)
    v (console c) (emitted c) (entropy c) (ticks c).
Definition set_console v c :=
  mkClient (ws c) (reconnectAttempts c) (isConnected c) (heartbeatInterval c)
    (sockets c) (next_socket c) (timeouts c) (intervals c) (next_timer c)
    (wire c) v (emitted c) (entropy c) (ticks c).
Definition set_emitted v c :=
  mkClient (ws c) (reconnectAttempts c) (isConnected c) (heartbeatInterval c)
    (sockets c) (next_socket c) (timeouts c) (intervals c) (next_timer c)
    (wire c) (console c) v (entropy c) (ticks c).
Definition set_ticks v c :=
  mkClient (ws c) (reconnectAttempts c) (isConnected c) (heartbeatInterval c)
    (sockets c) (next_socket c) (timeouts c) (intervals c) (next_timer c)
    (wire c) (console c) (emitted c) (entropy c) v.

(** [new HeyGenWebSocketClient(sessionId, realtimeEndpoint, apiKey)] *)
Definition new_client (ent : nat -> Entropy) : Client :=
  mkClient None 0 false None [] 0 [] [] 0 [] [] [] ent 0.

(** *** Runtime primitives *)

Definition put (l : Level) (msg : string) (c : Client) : Client :=
  set_console (console c ++ [(l, msg)]) c.

Definition emit (e : Emitted) (c : Client) : Client :=
  set_emitted (emitted c ++ [e]) c.

Definition readyState (c : Client) (sid : nat) : ReadyState :=
  match find (fun p => Nat.eqb (fst p) sid) (sockets c) with
  | Some p => snd p
  | None => CLOSED
  end.

Definition is_live (c : Client) (sid : nat) : bool :=
  existsb (fun p => Nat.eqb (fst p) sid) (sockets c).

Definition set_readyState (sid : nat) (r : ReadyState) (c : Client) : Client :=
  set_sockets
    (map (fun p => if Nat.eqb (fst p) sid then (sid, r) else p) (sockets c)) c.

Definition drop_socket (sid : nat) (c : Client) : Client :=
  set_sockets (filter (fun p => negb (Nat.eqb (fst p) sid)) (sockets c)) c.

(** [new WebSocket(url, ...)]: a socket that is connecting. *)
Definition new_WebSocket (c : Client) : nat * Client :=
  let sid := next_socket c in
  (sid, set_next_socket (S sid) (set_sockets (sockets c ++ [(sid, CONNECTING)]) c)).

(** [setTimeout(reconnect, delay)] *)
Definition setTimeout (delay : Z) (c : Client) : Client :=
  set_timeouts (timeouts c ++ [delay]) c.

(** [setInterval(keepAlive, 30000)] *)
Definition setInterval (c : Client) : nat * Client :=
  let h := next_timer c in
  (h, set_next_timer (S h) (set_intervals (intervals c ++ [h]) c)).

Definition clearInterval (h : nat) (c : Client) : Client :=
  set_intervals (filter (fun x => negb (Nat.eqb x h)) (intervals c)) c.

(** [ws.close(1000, 'Client disconnect')]: an open or connecting socket
    starts closing and reports 'close' later; a socket that is already
    closing or closed is left alone. *)
Definition ws_close (sid : nat) (c : Client) : Client :=
  match readyState c sid with
  | OPEN | CONNECTING => set_readyState sid CLOSING c
  | CLOSING | CLOSED => c
  end.

(** *** Methods *)

Definition connect (c : Client) : Client :=
  let c1 := put console_log "Connecting to HeyGen WebSocket" c in
  let (sid, c2) := new_WebSocket c1 in
  set_ws (Some sid) c2.

Definition startHeartbeat (c : Client) : Client :=
  let (h, c1) := setInterval c in
  set_heartbeatInterval (Some h) c1.

Definition stopHeartbeat (c : Client) : Client :=
  match heartbeatInterval c with
  | Some h => set_heartbeatInterval None (clearInterval h c)
  | None => c
  end.

(** The 'open' handler. *)
Definition on_open (c : Client) : Client :=
  let c := put console_log "HeyGen WebSocket connected" c in
  let c := set_isConnected true c in
  let c := set_reconnectAttempts 0 c in
  let c := startHeartbeat c in
  emit connected c.

(** The callback the 'close' handler passes to [setTimeout]. *)
Definition reconnect (c : Client) : Client :=
  let c := set_reconnectAttempts (reconnectAttempts c + 1) c in
  let c := put console_log "Attempting to reconnect" c in
  connect c.

(** The 'close' handler. *)
Definition on_close (code : Z) (c : Client) : Client :=
  let c := put console_log "HeyGen WebSocket closed" c in
  let c := set_isConnected false c in
  let c := stopHeartbeat c in
  let c := emit (disconnected code) c in
  if negb (code =? 1000)%Z && (reconnectAttempts c <? maxReconnectAttempts)%Z
  then setTimeout (reconnectDelay * reconnectAttempts c) c
  else c.

Definition generateEventId_call : M Client string :=
  fun c => (Ok (generateEventId (entropy c (ticks c))), set_ticks (S (ticks c)) c).

Definition not_connected_warning (ty : string) : LogLine :=
  (console_warn, "HeyGen WebSocket not connected, cannot send event: " ++ ty).

(** [send]: [ws.send] of the ws package raises on a socket that is still
    connecting, transmits on an open one and discards the message on one
    that is closing or closed. *)
Definition send (event : HeyGenWebSocketEvent) : M Client unit :=
  fun c =>
    match ws c with
    | Some sid =>
        if isConnected c then
          match readyState c sid with
          | CONNECTING =>
              (Err "WebSocket is not open: readyState 0 (CONNECTING)", c)
          | r =>
              let c1 :=
                if ReadyState_eqb r OPEN
                then set_wire (wire c ++ [(sid, event)]) c else c in
              let c2 := put console_log ("Sent HeyGen event: " ++ type event) c1 in
              (Ok tt,
               if String.eqb (type event) "agent.speak"
               then put console_log "Audio chunk size" c2 else c2)
          end
        else
          (Ok tt, set_console (console c ++ [not_connected_warning (type event)]) c)
    | None =>
        (Ok tt, set_console (console c ++ [not_connected_warning (type event)]) c)
    end.

Local Open Scope js_scope.

Definition sendSpeak (audio : string) : M Client string :=
  eventId <- generateEventId_call ;;
  send {| type := "agent.speak"; event_id := eventId; audio := Some audio |} ;;
  ret eventId.

Definition sendSpeakEnd (finalAudio : option string) : M Client string :=
  eventId <- generateEventId_call ;;
  send {| type := "agent.speak_end"; event_id := eventId; audio := finalAudio |} ;;
  ret eventId.

Definition sendInterrupt : M Client string :=
  eventId <- generateEventId_call ;;
  send {| type := "agent.interrupt"; event_id := eventId; audio := None |} ;;
  ret eventId.

Definition sendStartListening : M Client string :=
  eventId <- generateEventId_call ;;
  send {| type := "agent.start_listening"; event_id := eventId; audio := None |} ;;
  ret eventId.

Definition sendStopListening : M Client string :=
  eventId <- generateEventId_call ;;
  send {| type := "agent.stop_listening"; event_id := eventId; audio := None |} ;;
  ret eventId.

Definition sendAudioBufferClear : M Client string :=
  eventId <- generateEventId_call ;;
  send {| type := "agent.audio_buffer_clear"; event_id := eventId; audio := None |} ;;
  ret eventId.

Definition sendKeepAlive : M Client string :=
  eventId <- generateEventId_call ;;
  send {| type := "session.keep_alive"; event_id := eventId; audio := None |} ;;
  ret eventId.

Definition disconnect (c : Client) : Client :=
  let c := stopHeartbeat c in
  let c :=
    match ws c with
    | Some sid => set_ws None (ws_close sid c)
    | None => c
    end in
  set_isConnected false c.

Definition isConnectionOpen (c : Client) : bool :=
  isConnected c &&
  match ws c with
  | Some sid => ReadyState_eqb (readyState c sid) OPEN
  | None => false
  end.

(** The test [this.ws && this.isConnected] of [send]. *)
Definition can_send (c : Client) : bool :=
  match ws c with
  | Some _ => isConnected c
  | None => false
  end.

(** *** The seven command operations, as one family *)

Inductive Command :=
| Speak (audio : string)
| SpeakEnd (finalAudio : option string)
| Interrupt
| StartListening
| StopListening
| AudioBufferClear
| KeepAlive.

Definition command_type (cmd : Command) : string :=
  match cmd with
  | Speak _ => "agent.speak"
  | SpeakEnd _ => "agent.speak_end"
  | Interrupt => "agent.interrupt"
  | StartListening => "agent.start_listening"
  | StopListening => "agent.stop_listening"
  | AudioBufferClear => "agent.audio_buffer_clear"
  | KeepAlive => "session.keep_alive"
  end.

Definition command_audio (cmd : Command) : option string :=
  match cmd with
  | Speak a => Some a
  | SpeakEnd a => a
  | _ => None
  end.

Definition invoke (cmd : Command) : M Client string :=
  match cmd with
  | Speak a => sendSpeak a
  | SpeakEnd a => sendSpeakEnd a
  | Interrupt => sendInterrupt
  | StartListening => sendStartListening
  | StopListening => sendStopListening
  | AudioBufferClear => sendAudioBufferClear
  | KeepAlive => sendKeepAlive
  end.

(** The envelope of command [cmd] under identifier [id], as put on
    socket [sid]. *)
Definition command (sid : nat) (cmd : Command) (id : string)
  : nat * HeyGenWebSocketEvent :=
  (sid, {| type := command_type cmd; event_id := id;
           audio := command_audio cmd |}).

(** The current socket is [sid], it is open, and the client knows it. *)
Definition open_on (c : Client) (sid : nat) : Prop :=
  ws c = Some sid /\ isConnected c = true /\ readyState c sid = OPEN.

(** What a command does on a client that passes the test of [send] and
    whose socket is open. *)
Definition delivered (cmd : Command) (sid : nat) (c : Client) : Client :=
  let id := generateEventId (entropy c (ticks c)) in
  let ev := {| type := command_type cmd; event_id := id;
               audio := command_audio cmd |} in
  let c0 := set_ticks (S (ticks c)) c in
  let c1 := set_wire (wire c ++ [(sid, ev)]) c0 in
  let c2 := put console_log ("Sent HeyGen event: " ++ command_type cmd) c1 in
  if String.eqb (command_type cmd) "agent.speak"
  then put console_log "Audio chunk size" c2 else c2.

(** What a command leaves of a client that fails the test of [send]. *)
Definition dropped (cmd : Command) (c : Client) : Client :=
  set_console (console c ++ [not_connected_warning (command_type cmd)])
    (set_ticks (S (ticks c)) c).

(** *** The life of a client as a transition system *)

Inductive Action :=
| Connect                       (* a call of [connect()] *)
| Open (sid : nat)              (* socket [sid] reports 'open' *)
| Close (sid : nat) (code : Z)  (* socket [sid] reports 'close' *)
| Fire (i : nat)                (* the [i]-th pending reconnection fires *)
| Heartbeat (h : nat)           (* interval [h] fires *)
| Disconnect.                   (* a call of [disconnect()] *)

Fixpoint remove_nth {A} (i : nat) (l : list A) : list A :=
  match i, l with
  | _, [] => []
  | O, _ :: r => r
  | S j, x :: r => x :: remove_nth j r
  end.

(** [step a c] is [None] when the runtime cannot deliver [a] in [c]: only
    a connecting socket opens, only a socket that has not yet closed
    closes, only a pending timer fires. *)
Definition step (a : Action) (c : Client) : option Client :=
  match a with
  | Connect => Some (connect c)
  | Open sid =>
      if is_live c sid && ReadyState_eqb (readyState c sid) CONNECTING
      then Some (on_open (set_readyState sid OPEN c))
      else None
  | Close sid code =>
      if is_live c sid
      then Some (on_close code (drop_socket sid c))
      else None
  | Fire i =>
      match nth_error (timeouts c) i with
      | Some _ => Some (reconnect (set_timeouts (remove_nth i (timeouts c)) c))
      | None => None
      end
  | Heartbeat h =>
      if existsb (Nat.eqb h) (intervals c)
      then Some (snd (sendKeepAlive c))
      else None
  | Disconnect => Some (disconnect c)
  end.

Fixpoint run (acts : list Action) (c : Client) : option Client :=
  match acts with
  | [] => Some c
  | a :: rest =>
      match step a c with
      | Some c' => run rest c'
      | None => None
      end
  end.

Definition reachable (c : Client) : Prop :=
  exists ent acts, run acts (new_client ent) = Some c.

(** A run of failed connections: the current socket [sid] reports 'close'
    with the next code of [codes], the reconnection that closure scheduled
    fires, and the socket it created fails in turn.  The result is the
    socket created last and the client at that point. *)
Fixpoint fail_rounds (codes : list Z) (sid : nat) (c : Client)
  : option (nat * Client) :=
  match codes with
  | [] => Some (sid, c)
  | code :: rest =>
      match step (Close sid code) c with
      | Some c1 =>
          match step (Fire 0) c1 with
          | Some c2 =>
              match ws c2 with
              | Some sid' => fail_rounds rest sid' c2
              | None => None
              end
          | None => None
          end
      | None => None
      end
  end.

(** No socket reports 'open' while the client is already connected. *)
Fixpoint opens_when_disconnected (acts : list Action) (c : Client) : bool :=
  match acts with
  | [] => true
  | a :: rest =>
      match a with Open _ => negb (isConnected c) | _ => true end
      && match step a c with
         | Some c' => opens_when_disconnected rest c'
         | None => true
         end
  end.

Definition is_Connect (a : Action) : bool :=
  match a with Connect => true | _ => false end.

(** A close code other than the one [disconnect()] closes with. *)
Definition abnormal (code : Z) : Prop := code <> 1000%Z.

(** The handle kept in [heartbeatInterval] is set exactly while
    [isConnected] holds, and the timer it names is running. *)
Definition handle_tracks_connection (c : Client) : Prop :=
  (isConnected c = true <-> heartbeatInterval c <> None)
  /\ forall h, heartbeatInterval c = Some h -> In h (intervals c).

(** The running interval timers are the one named by the handle, and no
    other. *)
Definition single_heartbeat (c : Client) : Prop :=
  intervals c = match heartbeatInterval c with Some h => [h] | None => [] end.

(** Sample environments and traces. *)
Definition sample_entropy (k : nat) : Entropy :=
  {| Date_now := N.of_nat k + 1700000000000;
     Math_random_toString36 := "0.4fzyo82mvyr" |}.

Definition state_after (acts : list Action) (c : Client) : Client :=
  match run acts c with Some c' => c' | None => c end.

(** A client whose first connection attempt is in flight. *)
Definition connecting_client : Client := connect (new_client sample_entropy).

(** A client whose connection is open. *)
Definition open_client : Client :=
  state_after [Connect; Open 0] (new_client sample_entropy).

(** A connection opens, is lost, is re-established by the scheduled
    reconnection and is then closed by the application. *)
Definition reconnect_then_disconnect : list Action :=
  [Connect; Open 0; Close 0 1006%Z; Fire 0; Open 1; Disconnect; Close 1 1000%Z].

(** [connect()] is called twice and both sockets open. *)
Definition two_opens : Client :=
  state_after [Connect; Connect; Open 0; Open 1] (new_client sample_entropy).

End HeyGen.

(* ================================================================= *)
(** ** openai_heygen_bridge.ts *)

Module Bridge.

(** [OpenAIEvent]: the fields the bridge reads. *)
Record OpenAIEvent := {
  type : string;
  text : option string;
  audio : option string;
  content : option string;
  delta : option string;
  transcript : option string
}.

(** The fields of [OpenAIHeyGenBridge].  A bridge owns its channel, so
    [heygenClient] holds the client itself and every call made through it
    updates it in place.  [speak_timers] counts the pending one-second
    callbacks of [speakText]; [console] holds the lines the bridge's own
    code writes. *)
Record Bridge := mkBridge {
  heygenClient : option HeyGen.Client;
  currentSpeakEventId : option string;
  isListening : bool;
  speak_timers : nat;
  console : list LogLine
}.

Definition set_heygenClient v b :=
  mkBridge v (currentSpeakEventId b) (isListening b) (speak_timers b) (console b).
Definition set_currentSpeakEventId v b :=
  mkBridge (heygenClient b) v (isListening b) (speak_timers b) (console b).
Definition set_isListening v b :=
  mkBridge (heygenClient b) (currentSpeakEventId b) v (speak_timers b) (console b).
Definition set_speak_timers v b :=
  mkBridge (heygenClient b) (currentSpeakEventId b) (isListening b) v (console b).
Definition set_console v b :=
  mkBridge (heygenClient b) (currentSpeakEventId b) (isListening b) (speak_timers b) v.

(** [new OpenAIHeyGenBridge(heygenClient)] *)
Definition new_bridge (client : option HeyGen.Client) : Bridge :=
  mkBridge client None false 0 [].

Definition say (l : Level) (msg : string) : M Bridge unit :=
  modify (fun b => set_console (console b ++ [(l, msg)]) b).

(** [this.heygenClient.m(...)] *)
Definition on_client {A} (m : M HeyGen.Client A) : M Bridge A :=
  fun b =>
    match heygenClient b with
    | Some c => let (r, c') := m c in (r, set_heygenClient (Some c') b)
    | None => (Err "TypeError: Cannot read properties of null", b)
    end.

(** [this.heygenClient?.m(...)] *)
Definition on_client_opt {A} (m : M HeyGen.Client A) : M Bridge unit :=
  fun b =>
    match heygenClient b with
    | Some c =>
        match m c with
        | (Ok _, c') => (Ok tt, set_heygenClient (Some c') b)
        | (Err e, c') => (Err e, set_heygenClient (Some c') b)
        end
    | None => (Ok tt, b)
    end.

Definition attached (b : Bridge) : bool :=
  match heygenClient b with Some _ => true | None => false end.

Definition channel_open (b : Bridge) : bool :=
  match heygenClient b with
  | Some c => HeyGen.isConnectionOpen c
  | None => false
  end.

Local Open Scope js_scope.

Definition handleOpenAIAudio (audio : string) : M Bridge unit :=
  has <- gets attached ;;
  if negb has then ret tt else
  say console_log "Received OpenAI audio chunk" ;;
  current <- gets currentSpeakEventId ;;
  if negb (JS.truthy current) then
    eventId <- on_client (HeyGen.sendSpeak audio) ;;
    modify (set_currentSpeakEventId (Some eventId)) ;;
    say console_log "Started HeyGen speech with audio chunk"
  else
    _ <- on_client (HeyGen.sendSpeak audio) ;;
    say console_log "Continued HeyGen speech with audio chunk".

Definition handleOpenAIText (text : string) : M Bridge unit :=
  has <- gets attached ;;
  if negb has then ret tt else
  say console_log "OpenAI text response".

Definition handleOpenAIResponseDone : M Bridge unit :=
  has <- gets attached ;;
  if negb has then ret tt else
  current <- gets currentSpeakEventId ;;
  if JS.truthy current then
    _ <- on_client (HeyGen.sendSpeakEnd None) ;;
    modify (set_currentSpeakEventId None) ;;
    say console_log "Ended HeyGen speech session"
  else ret tt.

Definition handleUserTextInput (text : option string) : M Bridge unit :=
  has <- gets attached ;;
  if negb has then ret tt else
  let actualText := match JS.or text (Some "") with Some t => t | None => "" end in
  say console_log ("User input text: " ++ actualText) ;;
  listening <- gets isListening ;;
  (if negb listening then
     _ <- on_client HeyGen.sendStartListening ;;
     modify (set_isListening true) ;;
     say console_log "Started HeyGen listening animation"
   else ret tt) ;;
  _ <- on_client HeyGen.sendAudioBufferClear ;;
  ret tt.

Definition handleUserAudioInput : M Bridge unit :=
  has <- gets attached ;;
  if negb has then ret tt else
  say console_log "User started speaking" ;;
  current <- gets currentSpeakEventId ;;
  (if JS.truthy current then
     _ <- on_client HeyGen.sendInterrupt ;;
     modify (set_currentSpeakEventId None)
   else ret tt) ;;
  listening <- gets isListening ;;
  if negb listening then
    _ <- on_client HeyGen.sendStartListening ;;
    modify (set_isListening true)
  else ret tt.

Definition handleUserAudioStop : M Bridge unit :=
  has <- gets attached ;;
  if negb has then ret tt else
  say console_log "User stopped speaking" ;;
  listening <- gets isListening ;;
  if listening then
    _ <- on_client HeyGen.sendStopListening ;;
    modify (set_isListening false) ;;
    say console_log "Stopped HeyGen listening animation"
  else ret tt.

(** [case ty:] of the [switch (event.type)]. *)
Definition case (ty : string) (event : OpenAIEvent) : bool :=
  String.eqb (type event) ty.

Definition processOpenAIEvent (event : OpenAIEvent) : M Bridge unit :=
  say console_log ("Received OpenAI event: " ++ type event) ;;
  open <- gets channel_open ;;
  if negb open then
    say console_warn "HeyGen client not available, skipping event processing" ;;
    say console_log "HeyGen client status:"
  else
  say console_log ("Processing OpenAI event: " ++ type event) ;;
  if case "response.audio" event || case "response.audio.delta" event then
    say console_log "Audio event details:" ;;
    let audioData := JS.or (audio event) (delta event) in
    match JS.when_truthy audioData with
    | Some a => handleOpenAIAudio a
    | None => say console_log "No audio data found in audio event"
    end
  else if case "response.text" event || case "response.text.delta" event then
    say console_log "Text event details:" ;;
    let textData := JS.or (text event) (delta event) in
    match JS.when_truthy textData with
    | Some t => handleOpenAIText t
    | None => ret tt
    end
  else if case "response.audio_transcript.done" event || case "response.text.done" event then
    say console_log "Final transcript/text:"
  else if case "response.done" event then
    say console_log "Response completed" ;;
    handleOpenAIResponseDone
  else if case "input_text" event then
    say console_log "User input text:" ;;
    handleUserTextInput (JS.or (text event) (content event))
  else if case "input_audio" event then
    say console_log "User started speaking" ;;
    handleUserAudioInput
  else if case "input_audio.stop" event then
    say console_log "User stopped speaking" ;;
    handleUserAudioStop
  else if case "error" event then
    say console_error "OpenAI error event:"
  else
    say console_log ("Unhandled OpenAI event type: " ++ type event).

(** Events relayed one after the other, each awaited; the relay stops at
    the first one that raises. *)
Fixpoint process_all (events : list OpenAIEvent) : M Bridge unit :=
  match events with
  | [] => ret tt
  | e :: rest => processOpenAIEvent e ;; process_all rest
  end.

Definition speakText (text : string) : M Bridge unit :=
  has <- gets attached ;;
  if negb has then throw "HeyGen client not available" else
  say console_log "Would speak text if TTS was integrated" ;;
  eventId <- on_client (HeyGen.sendSpeak "") ;;
  modify (set_currentSpeakEventId (Some eventId)) ;;
  modify (fun b => set_speak_timers (S (speak_timers b)) b).

(** The callback [speakText] passes to [setTimeout(..., 1000)]. *)
Definition speakText_callback : M Bridge unit :=
  current <- gets currentSpeakEventId ;;
  if JS.truthy current then
    on_client_opt (HeyGen.sendSpeakEnd None) ;;
    modify (set_currentSpeakEventId None)
  else ret tt.

(** One pending callback of [speakText] fires. *)
Definition speak_timer_fires : M Bridge unit :=
  modify (fun b => set_speak_timers (pred (speak_timers b)) b) ;;
  speakText_callback.

Definition interrupt : M Bridge unit :=
  has <- gets attached ;;
  if negb has then ret tt else
  current <- gets currentSpeakEventId ;;
  if JS.truthy current then
    _ <- on_client HeyGen.sendInterrupt ;;
    modify (set_currentSpeakEventId None) ;;
    say console_log "Manually interrupted HeyGen speech"
  else ret tt.

Definition startListening : M Bridge unit :=
  has <- gets attached ;;
  listening <- gets isListening ;;
  if negb has || listening then ret tt else
  _ <- on_client HeyGen.sendStartListening ;;
  modify (set_isListening true) ;;
  say console_log "Manually started HeyGen listening".

Definition stopListening : M Bridge unit :=
  has <- gets attached ;;
  listening <- gets isListening ;;
  if negb has || negb listening then ret tt else
  _ <- on_client HeyGen.sendStopListening ;;
  modify (set_isListening false) ;;
  say console_log "Manually stopped HeyGen listening".

(** The listeners [setupHeyGenEventListeners] registers on the channel,
    by the name of the provider event. *)
Definition listener (name : string) : M Bridge unit :=
  if String.eqb name "agent.speak_started" then
    say console_log "HeyGen agent started speaking"
  else if String.eqb name "agent.speak_ended" then
    say console_log "HeyGen agent stopped speaking" ;;
    modify (set_currentSpeakEventId None)
  else if String.eqb name "agent.speak_interrupted" then
    say console_log "HeyGen agent speech interrupted" ;;
    modify (set_currentSpeakEventId None)
  else if String.eqb name "agent.idle_started" then
    say console_log "HeyGen agent entered idle state"
  else if String.eqb name "agent.idle_ended" then
    say console_log "HeyGen agent left idle state"
  else ret tt.

(** [getState()] *)
Module State.
Record t := {
  isConnected : bool;
  isSpeaking : bool;
  isListening : bool;
  currentSpeakEventId : option string
}.
End State.

Definition getState (b : Bridge) : State.t :=
  {| State.isConnected := channel_open b;
     State.isSpeaking :=
       match currentSpeakEventId b with Some _ => true | None => false end;
     State.isListening := isListening b;
     State.currentSpeakEventId := currentSpeakEventId b |}.

(** [destroy()]: the bridge afterwards, and the channel it released, as
    [disconnect()] left it. *)
Definition destroy (b : Bridge) : Bridge * option HeyGen.Client :=
  let b := set_currentSpeakEventId None b in
  let b := set_isListening false b in
  match heygenClient b with
  | Some c => (set_heygenClient None b, Some (HeyGen.disconnect c))
  | None => (b, None)
  end.

(** The four direct controls, as the control route of [index.ts]
    dispatches them. *)
Inductive Control :=
| speak (text : string)
| do_interrupt
| start_listening
| stop_listening.

Definition control (action : Control) : M Bridge unit :=
  match action with
  | speak text => speakText text
  | do_interrupt => interrupt
  | start_listening => startListening
  | stop_listening => stopListening
  end.

(** The messages a bridge's channel has put on the wire. *)
Definition sent (b : Bridge) : list (nat * HeyGen.HeyGenWebSocketEvent) :=
  match heygenClient b with
  | Some c => HeyGen.wire c
  | None => []
  end.

(** *** Vocabulary of the properties *)

(** An event of type [ty] with no other field. *)
Definition event (ty : string) : OpenAIEvent :=
  {| type := ty; text := None; audio := None; content := None;
     delta := None; transcript := None |}.

(** [{type: "input_text", text: "hello"}] *)
Definition input_text_hello : OpenAIEvent :=
  {| type := "input_text"; text := Some "hello"; audio := None;
     content := None; delta := None; transcript := None |}.

Definition is_audio_type (e : OpenAIEvent) : bool :=
  case "response.audio" e || case "response.audio.delta" e.

Definition is_text_type (e : OpenAIEvent) : bool :=
  case "response.text" e || case "response.text.delta" e.

(** An audio-chunk event that carries a payload in [audio] or [delta]. *)
Definition is_audio_chunk (e : OpenAIEvent) : bool :=
  is_audio_type e && JS.truthy (JS.or (audio e) (delta e)).

Definition chunk_payload (e : OpenAIEvent) : string :=
  match JS.or (audio e) (delta e) with Some a => a | None => "" end.

(** An event whose expected payload fields are missing. *)
Definition payload_missing (e : OpenAIEvent) : bool :=
  (is_audio_type e && negb (JS.truthy (JS.or (audio e) (delta e))))
  || (is_text_type e && negb (JS.truthy (JS.or (text e) (delta e))))
  || (case "input_text" e && negb (JS.truthy (JS.or (text e) (content e)))).

(** The [agent.speak] envelopes of a run of audio chunks, the first of
    them carrying the identifier number [tick] of the channel. *)
Fixpoint speak_commands (sid : nat) (ent : nat -> HeyGen.Entropy) (tick : nat)
    (events : list OpenAIEvent) : list (nat * HeyGen.HeyGenWebSocketEvent) :=
  match events with
  | [] => []
  | e :: rest =>
      HeyGen.command sid (HeyGen.Speak (chunk_payload e))
        (HeyGen.generateEventId (ent tick))
        :: speak_commands sid ent (S tick) rest
  end.

Definition chunk_A : OpenAIEvent :=
  {| type := "response.audio"; text := None; audio := Some "AAAA";
     content := None; delta := None; transcript := None |}.

Definition chunk_B : OpenAIEvent :=
  {| type := "response.audio.delta"; text := None; audio := None;
     content := None; delta := Some "BBBB"; transcript := None |}.

(** The actions that clear [currentSpeakEventId]. *)
Inductive Clearing :=
| by_interrupt
| by_response_done
| by_speak_ended
| by_speak_interrupted.

Definition clear_by (how : Clearing) : M Bridge unit :=
  match how with
  | by_interrupt => interrupt
  | by_response_done => processOpenAIEvent (event "response.done")
  | by_speak_ended => listener "agent.speak_ended"
  | by_speak_interrupted => listener "agent.speak_interrupted"
  end.

(** Sample bridges: without a channel, with a channel that never
    connected, and with an open channel. *)
Definition detached_bridge : Bridge := new_bridge None.

Definition idle_bridge : Bridge :=
  new_bridge (Some (HeyGen.new_client HeyGen.sample_entropy)).

Definition open_bridge : Bridge := new_bridge (Some HeyGen.open_client).

(** *** Further vocabulary *)

(** A bridge on an open channel with the speech "X" in flight. *)
Definition speaking_bridge : Bridge :=
  mkBridge (Some HeyGen.open_client) (Some "X") false 0 [].

(** A bridge on an open channel that is listening. *)
Definition listening_bridge : Bridge :=
  mkBridge (Some HeyGen.open_client) None true 0 [].


(** The bridge [b] with [lines] added to its console and nothing else
    changed. *)
Definition logging (lines : list LogLine) (b : Bridge) : Bridge :=
  set_console (console b ++ lines) b.

(** What [processOpenAIEvent] writes when it skips an event. *)
Definition skipped_lines (e : OpenAIEvent) : list LogLine :=
  [(console_log, "Received OpenAI event: " ++ type e);
   (console_warn, "HeyGen client not available, skipping event processing");
   (console_log, "HeyGen client status:")].

(** The state a bridge reports when it holds nothing. *)
Definition empty_state : State.t :=
  {| State.isConnected := false; State.isSpeaking := false;
     State.isListening := false; State.currentSpeakEventId := None |}.

(** A step of the channel's own life, seen from the bridge that holds it. *)
Definition channel_step (a : HeyGen.Action) (b : Bridge) : option Bridge :=
  match heygenClient b with
  | Some c =>
      match HeyGen.step a c with
      | Some c' => Some (set_heygenClient (Some c') b)
      | None => None
      end
  | None => None
  end.

End Bridge.

(* ================================================================= *)
(** ** index.ts: the state and control routes *)

Module Routes.

(** An entry of [activeSessions], as far as the two routes read it:
    [heygenData], [createdAt] and the second reference [heygenWsClient] to
    the bridge's channel are left out. *)
Record SessionData := {
  heygenSessionId : option string;
  openaiHeyGenBridge : option Bridge.Bridge
}.

(** [activeSessions]: a [Map] from session identifiers, as an association
    list without repeated keys. *)
Definition Sessions : Type := list (string * SessionData).

(** [activeSessions.get(sessionId)] *)
Fixpoint get (sessions : Sessions) (sessionId : string) : option SessionData :=
  match sessions with
  | [] => None
  | (k, v) :: rest => if String.eqb k sessionId then Some v else get rest sessionId
  end.

(** The bridge of session [sessionId] after a method mutated it; the entry
    itself stays in place. *)
Fixpoint mutate_bridge (sessions : Sessions) (sessionId : string)
    (b : Bridge.Bridge) : Sessions :=
  match sessions with
  | [] => []
  | (k, v) :: rest =>
      if String.eqb k sessionId
      then (k, {| heygenSessionId := heygenSessionId v;
                  openaiHeyGenBridge := Some b |}) :: rest
      else (k, v) :: mutate_bridge rest sessionId b
  end.

(** The JSON bodies the two routes answer with. *)
Inductive Body :=
| error_json (message : string)
| state_json (hasWebSocket : bool) (state : Bridge.State.t)
| success_json (state : Bridge.State.t).

Record Response := {
  status : nat;
  body : Body
}.

Definition bridge_of (sessions : Sessions) (sessionId : string)
  : option Bridge.Bridge :=
  match get sessions sessionId with
  | Some sessionData => openaiHeyGenBridge sessionData
  | None => None
  end.

(** [GET /api/heygen/state/:sessionId] *)
Definition state_route (sessions : Sessions) (sessionId : string) : Response :=
  match get sessions sessionId with
  | None => {| status := 404; body := error_json "Session not found" |}
  | Some sessionData =>
      match openaiHeyGenBridge sessionData with
      | Some bridge =>
          {| status := 200; body := state_json true (Bridge.getState bridge) |}
      | None =>
          {| status := 200; body := state_json false Bridge.empty_state |}
      end
  end.

(** The answer of the control route once the bridge method has run: the
    [catch] turns an exception into a 500 carrying its message. *)
Definition answer (sessions : Sessions) (sessionId : string)
    (r : Result unit * Bridge.Bridge) : Response * Sessions :=
  match r with
  | (Ok _, bridge) =>
      ({| status := 200; body := success_json (Bridge.getState bridge) |},
       mutate_bridge sessions sessionId bridge)
  | (Err message, bridge) =>
      ({| status := 500; body := error_json message |},
       mutate_bridge sessions sessionId bridge)
  end.

(** [POST /api/heygen/control/:sessionId] with body [{action, text}]. *)
Definition control_route (sessions : Sessions) (sessionId : string)
    (action : option string) (text : option string) : Response * Sessions :=
  match bridge_of sessions sessionId with
  | None =>
      ({| status := 404;
          body := error_json "HeyGen WebSocket bridge not available for this session" |},
       sessions)
  | Some bridge =>
      match action with
      | Some a =>
          if String.eqb a "speak" then
            match JS.when_truthy text with
            | None =>
                ({| status := 400;
                    body := error_json "text required for speak action" |},
                 sessions)
            | Some t => answer sessions sessionId (Bridge.speakText t bridge)
            end
          else if String.eqb a "interrupt" then
            answer sessions sessionId (Bridge.interrupt bridge)
          else if String.eqb a "start_listening" then
            answer sessions sessionId (Bridge.startListening bridge)
          else if String.eqb a "stop_listening" then
            answer sessions sessionId (Bridge.stopListening bridge)
          else
            ({| status := 400;
                body := error_json
                  "Invalid action. Use: speak, interrupt, start_listening, stop_listening" |},
             sessions)
      | None =>
          ({| status := 400;
              body := error_json
                "Invalid action. Use: speak, interrupt, start_listening, stop_listening" |},
           sessions)
      end
  end.

(** A store holding one session with an open bridge. *)
Definition sample_sessions : Sessions :=
  [("session_1", {| heygenSessionId := Some "hg_1";
                    openaiHeyGenBridge := Some Bridge.open_bridge |});
   ("session_2", {| heygenSessionId := None; openaiHeyGenBridge := None |})].

End Routes.

(* ================================================================= *)
(** ** heygen.ts: the body of the session request *)

Module HeygenApi.

(** JavaScript numbers that the request carries through, as rationals. *)
Local Open Scope Q_scope.

Record VoiceSettings := { rate : Q }.

Record STTSettings := {
  provider : string;
  confidence : Q
}.


(** The object posted to [streaming.new]. *)
Record Body := {
  body_quality : string;
  body_voice : VoiceSettings;
  body_video_encoding : string;
  body_disable_idle_timeout : bool;
  body_version : string;
  body_stt_settings : STTSettings;
  body_activity_idle_timeout : Q;
  avatar_id : string
}.




End HeygenApi.

(* ================================================================= *)
(** ** EventDisplay.tsx: the events shown *)

Module EventDisplay.

(** [l.slice(start)] for an integer [start]: a negative [start] counts from
    the end, and both ends are clamped. *)
Definition slice {A} (start : Z) (l : list A) : list A :=
  let len := Z.of_nat (length l) in
  let k := if (start <? 0)%Z then Z.max (len + start) 0 else Z.min start len in
  skipn (Z.to_nat k) l.

(** [events.slice(-maxEvents).reverse()] *)
Definition displayEvents {A} (maxEvents : Z) (events : list A) : list A :=
  List.rev (slice (- maxEvents) events).

(** The number in the badge "[n]+ older", shown when
    [events.length > maxEvents]. *)
Definition older_badge {A} (maxEvents : Z) (events : list A) : option Z :=
  let len := Z.of_nat (length events) in
  if (len >? maxEvents)%Z then Some (len - maxEvents)%Z else None.

End EventDisplay.

(* ================================================================= *)
(** ** Strings *)

Section StringFacts.

Lemma substring_length (s : string) :
  forall a n, String.length (String.substring a n s) = Nat.min n (String.length s - a).
Proof.
  induction s as [|ch s IH]; intros [|a] [|n]; simpl; try reflexivity.
  - rewrite IH. rewrite Nat.sub_0_r. reflexivity.
  - rewrite IH. reflexivity.
  - rewrite IH. reflexivity.
Qed.

Lemma all_chars_substring (p : ascii -> bool) (s : string) :
  JS.all_chars p s = true ->
  forall a n, JS.all_chars p (String.substring a n s) = true.
Proof.
  induction s as [|ch s IH]; intros Hs [|a] [|n]; simpl in *; try reflexivity.
  - apply andb_true_iff in Hs as [Hc Hr]. rewrite Hc. simpl. now apply IH.
  - apply andb_true_iff in Hs as [_ Hr]. now apply IH.
  - apply andb_true_iff in Hs as [_ Hr]. now apply IH.
Qed.

Lemma all_chars_weaken (p q : ascii -> bool) (s : string) :
  (forall ch, p ch = true -> q ch = true) ->
  JS.all_chars p s = true -> JS.all_chars q s = true.
Proof.
  intros Hpq. induction s as [|ch s IH]; simpl; [reflexivity|].
  intros H. apply andb_true_iff in H as [Hc Hr].
  rewrite (Hpq _ Hc). simpl. now apply IH.
Qed.

Lemma base36_is_alnum (ch : ascii) : JS.is_base36 ch = true -> JS.is_alnum ch = true.
Proof.
  unfold JS.is_base36, JS.is_alnum. intros H. rewrite H. reflexivity.
Qed.

Lemma digit_is_not_underscore (ch : ascii) :
  JS.is_digit ch = true -> Ascii.eqb ch "_" = false.
Proof.
  destruct ch as [[] [] [] [] [] [] [] []]; try reflexivity; discriminate.
Qed.

Lemma uint_digits (d : uint) :
  JS.all_chars JS.is_digit (NilEmpty.string_of_uint d) = true.
Proof. induction d; simpl; auto. Qed.

Lemma number_toString_digits (n : N) :
  JS.all_chars JS.is_digit (JS.number_toString n) = true.
Proof.
  unfold JS.number_toString, NilZero.string_of_uint.
  destruct (N.to_uint n) eqn:E; try reflexivity; rewrite <- E; apply uint_digits.
Qed.

Lemma number_toString_nonempty (n : N) :
  String.eqb (JS.number_toString n) "" = false.
Proof.
  unfold JS.number_toString, NilZero.string_of_uint.
  destruct (N.to_uint n); reflexivity.
Qed.

Lemma split_underscore_stamp (p q : string) :
  JS.all_chars JS.is_digit p = true ->
  HeyGen.split_underscore (p ++ "_" ++ q) = Some (p, q).
Proof.
  change ("_" ++ q) with (String "_"%char q).
  induction p as [|ch p IH]; simpl; intros H; [reflexivity|].
  apply andb_true_iff in H as [Hc Hr].
  rewrite (digit_is_not_underscore _ Hc), (IH Hr). reflexivity.
Qed.

Lemma generateEventId_truthy (e : HeyGen.Entropy) :
  JS.truthy (Some (HeyGen.generateEventId e)) = true.
Proof.
  unfold JS.truthy, HeyGen.generateEventId.
  pose proof (number_toString_nonempty (HeyGen.Date_now e)) as H.
  destruct (JS.number_toString (HeyGen.Date_now e)); [discriminate|reflexivity].
Qed.

Lemma generateEventId_form (e : HeyGen.Entropy) :
  HeyGen.has_event_id_form (HeyGen.generateEventId e)
  = Nat.leb 9 (String.length (HeyGen.Math_random_toString36 e))
    && JS.all_chars JS.is_alnum (JS.substring 2 9 (HeyGen.Math_random_toString36 e)).
Proof.
  unfold HeyGen.has_event_id_form, HeyGen.generateEventId.
  rewrite split_underscore_stamp by apply number_toString_digits.
  rewrite number_toString_nonempty, number_toString_digits.
  unfold JS.substring. rewrite substring_length.
  change (negb false && true) with true. rewrite andb_true_l.
  f_equal.
  destruct (Nat.leb_spec 9 (String.length (HeyGen.Math_random_toString36 e)));
    [apply Nat.eqb_eq | apply Nat.eqb_neq]; lia.
Qed.

End StringFacts.

(* ================================================================= *)
(** ** The command operations of the channel *)

Section Commands.

Import HeyGen.

(** Every command operation draws one identifier and hands one envelope
    to [send]. *)
Lemma invoke_unfold (cmd : Command) (c : Client) :
  invoke cmd c =
  let id := generateEventId (entropy c (ticks c)) in
  match send {| type := command_type cmd; event_id := id;
                audio := command_audio cmd |} (set_ticks (S (ticks c)) c) with
  | (Ok _, c') => (Ok id, c')
  | (Err e, c') => (Err e, c')
  end.
Proof.
  destruct cmd; cbv [invoke sendSpeak sendSpeakEnd sendInterrupt
    sendStartListening sendStopListening sendAudioBufferClear sendKeepAlive
    bind ret generateEventId_call command_type command_audio];
    destruct (send _ _) as [[[]|] ?]; reflexivity.
Qed.

Lemma invoke_returns_generated_id (cmd : Command) (c : Client) (id : string) :
  fst (invoke cmd c) = Ok id -> id = generateEventId (entropy c (ticks c)).
Proof.
  rewrite invoke_unfold. cbv zeta.
  destruct (send _ _) as [[[]|] ?]; simpl; congruence.
Qed.

Lemma isConnectionOpen_inv (c : Client) :
  isConnectionOpen c = true -> exists sid, open_on c sid.
Proof.
  unfold isConnectionOpen, open_on. intros H. apply andb_true_iff in H as [Hc Hw].
  destruct (ws c) as [sid|]; [|discriminate].
  exists sid. repeat split; trivial.
  destruct (readyState c sid); simpl in Hw; congruence.
Qed.

Lemma open_on_isConnectionOpen (c : Client) (sid : nat) :
  open_on c sid -> isConnectionOpen c = true.
Proof.
  intros (Hws & Hc & Hr). unfold isConnectionOpen. rewrite Hws, Hc, Hr. reflexivity.
Qed.

Lemma invoke_open (cmd : Command) (c : Client) (sid : nat) :
  open_on c sid ->
  invoke cmd c = (Ok (generateEventId (entropy c (ticks c))), delivered cmd sid c).
Proof.
  intros (Hws & Hc & Hr). rewrite invoke_unfold. cbv zeta.
  unfold send, delivered.
  change (ws (set_ticks (S (ticks c)) c)) with (ws c).
  change (isConnected (set_ticks (S (ticks c)) c)) with (isConnected c).
  rewrite Hws, Hc. cbv beta iota.
  change (readyState (set_ticks (S (ticks c)) c) sid) with (readyState c sid).
  rewrite Hr. reflexivity.
Qed.

Lemma delivered_facts (cmd : Command) (sid : nat) (c : Client) :
  let c' := delivered cmd sid c in
  ws c' = ws c /\ isConnected c' = isConnected c /\ sockets c' = sockets c
  /\ entropy c' = entropy c /\ ticks c' = S (ticks c)
  /\ wire c' = (wire c ++ [(sid, {| type := command_type cmd;
                                    event_id := generateEventId (entropy c (ticks c));
                                    audio := command_audio cmd |})])%list.
Proof.
  unfold delivered. destruct (String.eqb (command_type cmd) "agent.speak");
    repeat split; reflexivity.
Qed.

Lemma delivered_wire (cmd : Command) (sid : nat) (c : Client) :
  wire (delivered cmd sid c)
  = (wire c ++ [command sid cmd (generateEventId (entropy c (ticks c)))])%list.
Proof. apply delivered_facts. Qed.

Lemma delivered_entropy (cmd : Command) (sid : nat) (c : Client) :
  entropy (delivered cmd sid c) = entropy c.
Proof. apply delivered_facts. Qed.

Lemma delivered_ticks (cmd : Command) (sid : nat) (c : Client) :
  ticks (delivered cmd sid c) = S (ticks c).
Proof. apply delivered_facts. Qed.

Lemma delivered_open (cmd : Command) (sid : nat) (c : Client) :
  open_on c sid -> open_on (delivered cmd sid c) sid.
Proof.
  intros H. destruct (delivered_facts cmd sid c) as (Hw & Hc & Hs & _).
  unfold open_on, readyState in *. rewrite Hw, Hc, Hs. exact H.
Qed.

(** C4, as amended: every identifier a command operation returns is the
    decimal rendering of [Date.now()], an underscore, and the characters at
    positions 2 to 8 of [Math.random().toString(36)].  That suffix has at
    most seven characters; the identifier has the timestamp-underscore-seven
    alphanumerics form exactly when the rendering is at least nine
    characters long and those characters are alphanumeric, in particular
    whenever the rendering is "0." followed by seven or more base-36
    digits. *)
Theorem event_id_shape (cmd : Command) (c : Client) (id : string) :
  fst (invoke cmd c) = Ok id ->
  let e := entropy c (ticks c) in
  let suffix := JS.substring 2 9 (Math_random_toString36 e) in
  id = JS.number_toString (Date_now e) ++ "_" ++ suffix
  /\ String.length suffix = Nat.min 7 (String.length (Math_random_toString36 e) - 2)
  /\ has_event_id_form id
     = Nat.leb 9 (String.length (Math_random_toString36 e))
       && JS.all_chars JS.is_alnum suffix
  /\ (forall digits,
        Math_random_toString36 e = "0." ++ digits ->
        JS.all_chars JS.is_base36 digits = true ->
        7 <= String.length digits ->
        has_event_id_form id = true).
Proof.
  intros Hid e suffix. apply invoke_returns_generated_id in Hid. subst id.
  fold e. split; [reflexivity|]. split.
  { unfold suffix, JS.substring. rewrite substring_length. reflexivity. }
  split; [apply generateEventId_form|].
  intros digits Hr Hd Hlen. rewrite generateEventId_form. fold e.
  rewrite Hr. apply andb_true_iff. split.
  - apply Nat.leb_le. simpl. lia.
  - change (JS.substring 2 9 ("0." ++ digits)) with (String.substring 0 7 digits).
    apply all_chars_substring.
    apply (all_chars_weaken JS.is_base36); [apply base36_is_alnum | exact Hd].
Qed.

Lemma event_id_shape_witness :
  fst (invoke KeepAlive (new_client sample_entropy)) = Ok "1700000000000_4fzyo82"
  /\ has_event_id_form "1700000000000_4fzyo82" = true.
Proof.
  split; [reflexivity|].
  refine (proj2 (proj2 (proj2 (event_id_shape KeepAlive (new_client sample_entropy)
                  "1700000000000_4fzyo82" eq_refl))) "4fzyo82mvyr" eq_refl eq_refl _).
  simpl. lia.
Defined.

(** C4, as stated, fails: when [Math.random()] yields one half, whose
    base-36 rendering is "0.i", the suffix is the single character "i". *)
Lemma event_id_suffix_can_be_short :
  ~ (forall cmd c id, fst (invoke cmd c) = Ok id -> has_event_id_form id = true).
Proof.
  intros H.
  specialize (H KeepAlive
    (new_client (fun _ => {| Date_now := 1700000000000;
                             Math_random_toString36 := "0.i" |}))
    "1700000000000_i" eq_refl).
  vm_compute in H. discriminate H.
Qed.

Lemma invoke_dropped (cmd : Command) (c : Client) :
  can_send c = false ->
  invoke cmd c = (Ok (generateEventId (entropy c (ticks c))), dropped cmd c).
Proof.
  intros H. rewrite invoke_unfold. cbv zeta.
  unfold send, can_send, dropped in *.
  change (ws (set_ticks (S (ticks c)) c)) with (ws c).
  change (isConnected (set_ticks (S (ticks c)) c)) with (isConnected c).
  destruct (ws c) as [sid|]; [rewrite H|]; reflexivity.
Qed.

(** C6: a command operation invoked while the test [this.ws &&
    this.isConnected] fails puts nothing on the wire, raises nothing,
    writes the warning to the console, and still returns the identifier it
    generated. *)
Theorem command_dropped_when_not_connected (cmd : Command) (c : Client) :
  can_send c = false ->
  exists c',
    invoke cmd c = (Ok (generateEventId (entropy c (ticks c))), c')
    /\ wire c' = wire c
    /\ console c' = (console c ++ [not_connected_warning (command_type cmd)])%list
    /\ c' = dropped cmd c.
Proof.
  intros H. exists (dropped cmd c).
  split; [apply invoke_dropped; exact H|]. repeat split; reflexivity.
Qed.

Lemma command_dropped_when_not_connected_witness :
  can_send (new_client sample_entropy) = false
  /\ exists c',
    invoke (Speak "AAAA") (new_client sample_entropy) = (Ok "1700000000000_4fzyo82", c')
    /\ wire c' = []
    /\ console c' = [not_connected_warning "agent.speak"].
Proof.
  split; [reflexivity|].
  destruct (command_dropped_when_not_connected (Speak "AAAA")
              (new_client sample_entropy) eq_refl) as (c' & H1 & H2 & H3 & _).
  exists c'. repeat split; assumption.
Defined.

End Commands.

(** Reading the fields of a client, given by its constructor, after a chain
    of field updates. *)
Ltac fields :=
  cbv  [HeyGen.set_ws HeyGen.set_reconnectAttempts HeyGen.set_isConnected
        HeyGen.set_heartbeatInterval HeyGen.set_sockets HeyGen.set_next_socket
        HeyGen.set_timeouts HeyGen.set_intervals HeyGen.set_next_timer
        HeyGen.set_wire HeyGen.set_console HeyGen.set_emitted HeyGen.set_ticks
        HeyGen.ws HeyGen.reconnectAttempts HeyGen.isConnected
        HeyGen.heartbeatInterval HeyGen.sockets HeyGen.next_socket
        HeyGen.timeouts HeyGen.intervals HeyGen.next_timer HeyGen.wire
        HeyGen.console HeyGen.emitted HeyGen.entropy HeyGen.ticks
        fst snd] in *.

(* ================================================================= *)
(** ** Reconnection *)

Section Reconnection.

Import HeyGen.

Lemma on_close_fields (code : Z) (c : Client) :
  let c' := on_close code c in
  isConnected c' = false /\ heartbeatInterval c' = None
  /\ reconnectAttempts c' = reconnectAttempts c
  /\ sockets c' = sockets c /\ ws c' = ws c /\ next_socket c' = next_socket c
  /\ timeouts c' =
     (if negb (code =? 1000)%Z && (reconnectAttempts c <? maxReconnectAttempts)%Z
      then timeouts c ++ [reconnectDelay * reconnectAttempts c]%Z
      else timeouts c)%list.
Proof.
  destruct c as [w n ic hb so ns to iv nt wi co em en ti].
  unfold on_close, stopHeartbeat, setTimeout, emit, clearInterval, put. fields.
  destruct hb; fields;
    destruct (negb (code =? 1000)%Z && (n <? maxReconnectAttempts)%Z);
    repeat split; reflexivity.
Qed.

Lemma only_socket_is_live (c : Client) (sid : nat) (r : ReadyState) :
  sockets c = [(sid, r)] ->
  is_live c sid = true /\ sockets (drop_socket sid c) = [].
Proof.
  intros H. unfold is_live, drop_socket. simpl. rewrite H. simpl.
  rewrite Nat.eqb_refl. split; reflexivity.
Qed.

(** The closure of the only socket while attempts remain: a reconnection is
    scheduled after [reconnectDelay * reconnectAttempts] milliseconds, the
    counter being the number of reconnections made so far. *)
Lemma closure_schedules (c : Client) (sid : nat) (r : ReadyState) (code : Z) :
  sockets c = [(sid, r)] -> timeouts c = [] -> abnormal code ->
  (reconnectAttempts c < 5)%Z ->
  exists c1,
    step (Close sid code) c = Some c1
    /\ timeouts c1 = [1000 * reconnectAttempts c]%Z
    /\ sockets c1 = [] /\ isConnected c1 = false
    /\ reconnectAttempts c1 = reconnectAttempts c
    /\ next_socket c1 = next_socket c.
Proof.
  intros Hs Ht Hcode Hlt.
  destruct (only_socket_is_live c sid r Hs) as [Hlive Hdrop].
  exists (on_close code (drop_socket sid c)).
  destruct (on_close_fields code (drop_socket sid c))
    as (Hc & _ & Ha & Hso & _ & Hn & Hto).
  cbv zeta in *. unfold step. rewrite Hlive. split; [reflexivity|].
  rewrite Hto, Hc, Ha, Hso, Hn, Hdrop.
  change (reconnectAttempts (drop_socket sid c)) with (reconnectAttempts c).
  change (timeouts (drop_socket sid c)) with (timeouts c).
  change (next_socket (drop_socket sid c)) with (next_socket c).
  assert ((code =? 1000)%Z = false) as -> by (apply Z.eqb_neq; exact Hcode).
  assert ((reconnectAttempts c <? maxReconnectAttempts)%Z = true) as ->
    by (apply Z.ltb_lt; exact Hlt).
  rewrite Ht. repeat split; reflexivity.
Qed.

(** The closure of the only socket once the attempts are used up. *)
Lemma closure_gives_up (c : Client) (sid : nat) (r : ReadyState) (code : Z) :
  sockets c = [(sid, r)] -> timeouts c = [] ->
  (5 <= reconnectAttempts c)%Z ->
  exists c1,
    step (Close sid code) c = Some c1
    /\ timeouts c1 = [] /\ sockets c1 = [] /\ isConnected c1 = false.
Proof.
  intros Hs Ht Hge.
  destruct (only_socket_is_live c sid r Hs) as [Hlive Hdrop].
  exists (on_close code (drop_socket sid c)).
  destruct (on_close_fields code (drop_socket sid c))
    as (Hc & _ & Ha & Hso & _ & Hn & Hto).
  cbv zeta in *. unfold step. rewrite Hlive. split; [reflexivity|].
  rewrite Hto, Hc, Hso, Hdrop.
  change (reconnectAttempts (drop_socket sid c)) with (reconnectAttempts c).
  change (timeouts (drop_socket sid c)) with (timeouts c).
  assert ((reconnectAttempts c <? maxReconnectAttempts)%Z = false) as ->
    by (apply Z.ltb_ge; exact Hge).
  rewrite andb_false_r, Ht. repeat split; reflexivity.
Qed.

(** The scheduled reconnection fires: the counter goes up by one and a new
    socket starts connecting. *)
Lemma reconnection_fires (c : Client) (d : Z) :
  timeouts c = [d] -> sockets c = [] ->
  exists c2,
    step (Fire 0) c = Some c2
    /\ ws c2 = Some (next_socket c)
    /\ sockets c2 = [(next_socket c, CONNECTING)]
    /\ timeouts c2 = []
    /\ reconnectAttempts c2 = (reconnectAttempts c + 1)%Z
    /\ isConnected c2 = isConnected c.
Proof.
  intros Ht Hs. unfold step. rewrite Ht. simpl.
  eexists. split; [reflexivity|]. simpl. rewrite Hs. repeat split; reflexivity.
Qed.

Lemma fail_rounds_spec (codes : list Z) :
  forall (c : Client) (sid : nat) (r : ReadyState),
    sockets c = [(sid, r)] -> timeouts c = [] ->
    Forall abnormal codes ->
    (reconnectAttempts c + Z.of_nat (length codes) <= 5)%Z ->
    exists sid' c' r',
      fail_rounds codes sid c = Some (sid', c')
      /\ sockets c' = [(sid', r')] /\ timeouts c' = []
      /\ reconnectAttempts c' = (reconnectAttempts c + Z.of_nat (length codes))%Z.
Proof.
  induction codes as [|code rest IH]; intros c sid r Hs Ht Hall Hle.
  - exists sid, c, r. simpl. rewrite Z.add_0_r. repeat split; assumption.
  - inversion Hall as [|? ? Hcode Hrest]; subst.
    cbn [length] in Hle. rewrite Nat2Z.inj_succ in Hle.
    destruct (closure_schedules c sid r code Hs Ht Hcode ltac:(lia))
      as (c1 & Hstep1 & Ht1 & Hs1 & _ & Ha1 & Hn1).
    destruct (reconnection_fires c1 _ Ht1 Hs1)
      as (c2 & Hstep2 & Hws2 & Hs2 & Ht2 & Ha2 & _).
    destruct (IH c2 (next_socket c1) CONNECTING Hs2 Ht2 Hrest ltac:(lia))
      as (sid' & c' & r' & Hrun & Hs' & Ht' & Ha').
    exists sid', c', r'. cbn [fail_rounds]. rewrite Hstep1, Hstep2, Hws2.
    split; [exact Hrun|]. split; [exact Hs'|]. split; [exact Ht'|].
    rewrite Ha', Ha2, Ha1. cbn [length]. lia.
Qed.

(** With no socket and no pending reconnection, nothing but a call of
    [connect()] brings the client back. *)
Lemma idle_step (a : Action) (c c' : Client) :
  sockets c = [] -> timeouts c = [] -> isConnected c = false ->
  is_Connect a = false -> step a c = Some c' ->
  sockets c' = [] /\ timeouts c' = [] /\ isConnected c' = false.
Proof.
  intros Hs Ht Hc Ha Hstep. destruct a as [|sid|sid code|i|h|];
    try discriminate Ha; unfold step, is_live in Hstep.
  - rewrite Hs in Hstep. discriminate.
  - rewrite Hs in Hstep. discriminate.
  - rewrite Ht in Hstep. destruct i; discriminate.
  - destruct (existsb (Nat.eqb h) (intervals c)); [|discriminate].
    injection Hstep as <-.
    change (sendKeepAlive c) with (invoke KeepAlive c).
    rewrite invoke_dropped
      by (unfold can_send; rewrite Hc; destruct (ws c); reflexivity).
    simpl. repeat split; assumption.
  - injection Hstep as <-. unfold disconnect, stopHeartbeat, ws_close, readyState.
    destruct (heartbeatInterval c); simpl; destruct (ws c); simpl;
      rewrite ?Hs; simpl; rewrite ?Hs, ?Ht; repeat split; reflexivity.
Qed.

Lemma idle_run (acts : list Action) :
  forall c c',
    sockets c = [] -> timeouts c = [] -> isConnected c = false ->
    forallb (fun a => negb (is_Connect a)) acts = true ->
    run acts c = Some c' ->
    sockets c' = [] /\ timeouts c' = [] /\ isConnected c' = false.
Proof.
  induction acts as [|a rest IH]; intros c c' Hs Ht Hc Hall Hrun.
  - injection Hrun as <-. repeat split; assumption.
  - simpl in Hall, Hrun. apply andb_true_iff in Hall as [Ha Hrest].
    destruct (step a c) as [c1|] eqn:Hstep; [|discriminate].
    apply negb_true_iff in Ha.
    destruct (idle_step a c c1 Hs Ht Hc Ha Hstep) as (Hs1 & Ht1 & Hc1).
    exact (IH c1 c' Hs1 Ht1 Hc1 Hrest Hrun).
Qed.

(** C2, as the code has it: when the [n]-th consecutive abnormal closure
    is handled ([n - 1] failed reconnections behind it, [n] from 1 to 5),
    the reconnection it schedules is delayed by [(n - 1) * 1000]
    milliseconds, the counter being incremented only when the timer fires.
    The first reconnection is therefore immediate and the delays are 0, 1,
    2, 3 and 4 seconds, not [n * 1000]. *)
Theorem reconnect_delay_counts_attempts_made
    (c : Client) (sid : nat) (r : ReadyState) (codes : list Z) (code : Z) :
  sockets c = [(sid, r)] -> timeouts c = [] -> reconnectAttempts c = 0%Z ->
  Forall abnormal codes -> abnormal code -> length codes < 5 ->
  exists sid' c' c'',
    fail_rounds codes sid c = Some (sid', c')
    /\ step (Close sid' code) c' = Some c''
    /\ timeouts c'' = [1000 * Z.of_nat (length codes)]%Z.
Proof.
  intros Hs Ht Ha Hall Hcode Hlen.
  destruct (fail_rounds_spec codes c sid r Hs Ht Hall ltac:(lia))
    as (sid' & c' & r' & Hrun & Hs' & Ht' & Ha').
  destruct (closure_schedules c' sid' r' code Hs' Ht' Hcode ltac:(lia))
    as (c'' & Hstep & Ht'' & _).
  exists sid', c', c''. split; [exact Hrun|]. split; [exact Hstep|].
  rewrite Ht'', Ha', Ha. reflexivity.
Qed.

Lemma reconnect_delay_counts_attempts_made_witness :
  exists sid' c' c'',
    fail_rounds [] 0 connecting_client = Some (sid', c')
    /\ step (Close sid' 1006) c' = Some c''
    /\ timeouts c'' = [0%Z].
Proof.
  apply (reconnect_delay_counts_attempts_made connecting_client 0 CONNECTING [] 1006%Z);
    try reflexivity.
  - constructor.
  - unfold abnormal. lia.
  - simpl. lia.
Defined.

(** C5: after five consecutive abnormal closures, each followed by the
    reconnection it scheduled and none by an 'open', a sixth abnormal
    closure schedules nothing; the client is then disconnected with no
    socket and no pending timer, and stays so whatever happens next, short
    of a call of [connect()]. *)
Theorem no_reconnection_after_five_failures
    (c : Client) (sid : nat) (r : ReadyState) (codes : list Z) (code : Z) :
  sockets c = [(sid, r)] -> timeouts c = [] -> reconnectAttempts c = 0%Z ->
  Forall abnormal codes -> abnormal code -> length codes = 5 ->
  exists sid5 c5 c6,
    fail_rounds codes sid c = Some (sid5, c5)
    /\ step (Close sid5 code) c5 = Some c6
    /\ timeouts c6 = [] /\ isConnected c6 = false
    /\ forall acts c',
         forallb (fun a => negb (is_Connect a)) acts = true ->
         run acts c6 = Some c' ->
         isConnected c' = false /\ timeouts c' = [].
Proof.
  intros Hs Ht Ha Hall Hcode Hlen.
  destruct (fail_rounds_spec codes c sid r Hs Ht Hall ltac:(lia))
    as (sid5 & c5 & r5 & Hrun & Hs5 & Ht5 & Ha5).
  destruct (closure_gives_up c5 sid5 r5 code Hs5 Ht5 ltac:(lia))
    as (c6 & Hstep & Ht6 & Hs6 & Hc6).
  exists sid5, c5, c6.
  split; [exact Hrun|]. split; [exact Hstep|].
  split; [exact Ht6|]. split; [exact Hc6|].
  intros acts c' Hacts Hrest.
  destruct (idle_run acts c6 c' Hs6 Ht6 Hc6 Hacts Hrest) as (_ & Ht' & Hc').
  split; assumption.
Qed.

Lemma no_reconnection_after_five_failures_witness :
  exists sid5 c5 c6,
    fail_rounds [1006; 1006; 1011; 1006; 1001]%Z 0 connecting_client = Some (sid5, c5)
    /\ step (Close sid5 1006) c5 = Some c6
    /\ timeouts c6 = [] /\ isConnected c6 = false
    /\ forall acts c',
         forallb (fun a => negb (is_Connect a)) acts = true ->
         run acts c6 = Some c' ->
         isConnected c' = false /\ timeouts c' = [].
Proof.
  apply (no_reconnection_after_five_failures connecting_client 0 CONNECTING);
    try reflexivity.
  - repeat constructor; unfold abnormal; lia.
  - unfold abnormal. lia.
Defined.

End Reconnection.

(* ================================================================= *)
(** ** The heartbeat timer *)

Section Heartbeat.

Import HeyGen.

Lemma invoke_keeps_timers (cmd : Command) (c : Client) :
  let c' := snd (invoke cmd c) in
  isConnected c' = isConnected c /\ heartbeatInterval c' = heartbeatInterval c
  /\ intervals c' = intervals c.
Proof.
  rewrite invoke_unfold. cbv zeta.
  destruct c as [w n ic hb so ns to iv nt wi co em en ti].
  unfold send, put. cbn [type]. fields.
  destruct w as [sid|]; [destruct ic|]; fields;
    try (repeat split; reflexivity).
  match goal with |- context [readyState ?x ?y] => destruct (readyState x y) end;
    cbn [ReadyState_eqb]; fields; try (repeat split; reflexivity);
    destruct (String.eqb (command_type cmd) "agent.speak"); fields;
    repeat split; reflexivity.
Qed.

Lemma on_open_timers (c : Client) :
  let c' := on_open c in
  isConnected c' = true /\ heartbeatInterval c' = Some (next_timer c)
  /\ intervals c' = (intervals c ++ [next_timer c])%list.
Proof.
  destruct c as [w n ic hb so ns to iv nt wi co em en ti].
  unfold on_open, startHeartbeat, setInterval, emit, put. fields.
  repeat split; reflexivity.
Qed.

Lemma stopHeartbeat_timers (c : Client) :
  let c' := stopHeartbeat c in
  heartbeatInterval c' = None
  /\ intervals c' =
     match heartbeatInterval c with
     | Some h => filter (fun x => negb (Nat.eqb x h)) (intervals c)
     | None => intervals c
     end.
Proof.
  destruct c as [w n ic hb so ns to iv nt wi co em en ti].
  unfold stopHeartbeat, clearInterval. fields.
  destruct hb; fields; split; reflexivity.
Qed.

Lemma on_close_timers (code : Z) (c : Client) :
  let c' := on_close code c in
  isConnected c' = false /\ heartbeatInterval c' = None
  /\ intervals c' =
     match heartbeatInterval c with
     | Some h => filter (fun x => negb (Nat.eqb x h)) (intervals c)
     | None => intervals c
     end.
Proof.
  destruct c as [w n ic hb so ns to iv nt wi co em en ti].
  unfold on_close, stopHeartbeat, clearInterval, setTimeout, emit, put. fields.
  destruct hb; fields;
    match goal with |- context [if ?b then _ else _] => destruct b end;
    fields; repeat split; reflexivity.
Qed.

Lemma disconnect_timers (c : Client) :
  let c' := disconnect c in
  isConnected c' = false /\ heartbeatInterval c' = None
  /\ intervals c' =
     match heartbeatInterval c with
     | Some h => filter (fun x => negb (Nat.eqb x h)) (intervals c)
     | None => intervals c
     end.
Proof.
  destruct c as [w n ic hb so ns to iv nt wi co em en ti].
  unfold disconnect, stopHeartbeat, clearInterval, ws_close, set_readyState. fields.
  destruct hb; fields;
    (destruct w as [sid|]; fields;
     [match goal with |- context [readyState ?x ?y] => destruct (readyState x y) end|]);
    fields; repeat split; reflexivity.
Qed.

Lemma cleared_handle_is_gone (h : nat) (l : list nat) :
  ~ In h (filter (fun x => negb (Nat.eqb x h)) l).
Proof.
  intros Hin. apply filter_In in Hin as [_ Hne].
  rewrite Nat.eqb_refl in Hne. discriminate.
Qed.

(** What one step does to the connection flag, the handle and the running
    timers. *)
Lemma step_timer_effect (a : Action) (c c' : Client) :
  step a c = Some c' ->
  match a with
  | Open _ => isConnected c' = true /\ heartbeatInterval c' = Some (next_timer c)
              /\ intervals c' = (intervals c ++ [next_timer c])%list
  | Close _ _ | Disconnect =>
      isConnected c' = false /\ heartbeatInterval c' = None
      /\ intervals c' =
         match heartbeatInterval c with
         | Some h => filter (fun x => negb (Nat.eqb x h)) (intervals c)
         | None => intervals c
         end
  | _ => isConnected c' = isConnected c
         /\ heartbeatInterval c' = heartbeatInterval c
         /\ intervals c' = intervals c
  end.
Proof.
  destruct a as [|sid|sid code|i|h|]; unfold step; intros H.
  - injection H as <-. destruct c as [w n ic hb so ns to iv nt wi co em en ti].
    unfold connect, new_WebSocket, put. fields. repeat split; reflexivity.
  - destruct (is_live c sid && ReadyState_eqb (readyState c sid) CONNECTING);
      [|discriminate]. injection H as <-.
    apply (on_open_timers (set_readyState sid OPEN c)).
  - destruct (is_live c sid); [|discriminate]. injection H as <-.
    apply (on_close_timers code (drop_socket sid c)).
  - destruct (nth_error (timeouts c) i); [|discriminate]. injection H as <-.
    destruct c as [w n ic hb so ns to iv nt wi co em en ti].
    unfold reconnect, connect, new_WebSocket, put. fields.
    repeat split; reflexivity.
  - destruct (existsb (Nat.eqb h) (intervals c)); [|discriminate].
    injection H as <-. apply (invoke_keeps_timers KeepAlive c).
  - injection H as <-. apply disconnect_timers.
Qed.

Lemma step_keeps_handle (a : Action) (c c' : Client) :
  handle_tracks_connection c -> step a c = Some c' ->
  handle_tracks_connection c'.
Proof.
  intros [Hiff Hin] Hstep. apply step_timer_effect in Hstep.
  unfold handle_tracks_connection.
  destruct a; destruct Hstep as (Hc & Hh & Hi); rewrite Hc, Hh, Hi;
    try (split; [exact Hiff | exact Hin]).
  - split; [split; [discriminate | reflexivity]|].
    intros h Heq. injection Heq as <-. apply in_or_app. right. left. reflexivity.
  - split; [split; [discriminate | congruence] | discriminate].
  - split; [split; [discriminate | congruence] | discriminate].
Qed.

Lemma step_keeps_single (a : Action) (c c' : Client) :
  handle_tracks_connection c -> single_heartbeat c ->
  match a with Open _ => negb (isConnected c) | _ => true end = true ->
  step a c = Some c' ->
  single_heartbeat c'.
Proof.
  intros [Hiff _] Hone Hguard Hstep. apply step_timer_effect in Hstep.
  unfold single_heartbeat in *.
  destruct a; destruct Hstep as (Hc & Hh & Hi); rewrite Hh, Hi;
    try exact Hone.
  - apply negb_true_iff in Hguard.
    destruct (heartbeatInterval c) eqn:E.
    + assert (isConnected c = true) by (apply Hiff; discriminate). congruence.
    + rewrite Hone. reflexivity.
  - destruct (heartbeatInterval c); rewrite Hone; [|reflexivity].
    simpl. rewrite Nat.eqb_refl. reflexivity.
  - destruct (heartbeatInterval c); rewrite Hone; [|reflexivity].
    simpl. rewrite Nat.eqb_refl. reflexivity.
Qed.

Lemma run_keeps_handle (acts : list Action) :
  forall c c', handle_tracks_connection c -> run acts c = Some c' ->
               handle_tracks_connection c'.
Proof.
  induction acts as [|a rest IH]; simpl; intros c c' Hinv Hrun.
  - injection Hrun as <-. exact Hinv.
  - destruct (step a c) as [c1|] eqn:Hstep; [|discriminate].
    exact (IH c1 c' (step_keeps_handle a c c1 Hinv Hstep) Hrun).
Qed.

Lemma run_keeps_single (acts : list Action) :
  forall c c',
    handle_tracks_connection c -> single_heartbeat c ->
    opens_when_disconnected acts c = true ->
    run acts c = Some c' -> single_heartbeat c'.
Proof.
  induction acts as [|a rest IH]; simpl; intros c c' Hinv Hone Hguard Hrun.
  - injection Hrun as <-. exact Hone.
  - destruct (step a c) as [c1|] eqn:Hstep; [|discriminate].
    apply andb_true_iff in Hguard as [Ha Hrest].
    exact (IH c1 c' (step_keeps_handle a c c1 Hinv Hstep)
              (step_keeps_single a c c1 Hinv Hone Ha Hstep) Hrest Hrun).
Qed.

Lemma new_client_handle (ent : nat -> Entropy) :
  handle_tracks_connection (new_client ent) /\ single_heartbeat (new_client ent).
Proof.
  unfold handle_tracks_connection, single_heartbeat. simpl.
  repeat split; try discriminate; congruence.
Qed.

(** C8, as amended.  In every state a client reaches from construction,
    the handle in [heartbeatInterval] is set exactly when [isConnected]
    holds, and it names a running timer.  The handler of 'open' starts a
    timer and keeps its handle; the handler of 'close' and [disconnect()]
    cancel the timer whose handle is kept and clear the handle.  If no
    socket reports 'open' while the client is already connected, the timer
    named by the handle is the only one running, so exactly one heartbeat
    timer runs exactly when the client is connected. *)
Theorem heartbeat_follows_connection
    (ent : nat -> Entropy) (acts : list Action) (c : Client) :
  run acts (new_client ent) = Some c ->
  (isConnected c = true <-> heartbeatInterval c <> None)
  /\ (forall h, heartbeatInterval c = Some h -> In h (intervals c))
  /\ (forall sid c', step (Open sid) c = Some c' ->
        heartbeatInterval c' = Some (next_timer c)
        /\ In (next_timer c) (intervals c'))
  /\ (forall sid code c', step (Close sid code) c = Some c' ->
        heartbeatInterval c' = None
        /\ forall h, heartbeatInterval c = Some h -> ~ In h (intervals c'))
  /\ (forall c', step Disconnect c = Some c' ->
        heartbeatInterval c' = None
        /\ forall h, heartbeatInterval c = Some h -> ~ In h (intervals c'))
  /\ (opens_when_disconnected acts (new_client ent) = true ->
        single_heartbeat c
        /\ (length (intervals c) = 1 <-> isConnected c = true)).
Proof.
  intros Hrun.
  destruct (new_client_handle ent) as [Hinv0 Hone0].
  pose proof (run_keeps_handle acts _ _ Hinv0 Hrun) as [Hiff Hin].
  split; [exact Hiff|]. split; [exact Hin|].
  split; [|split; [|split]].
  - intros sid c' Hstep. apply step_timer_effect in Hstep as (_ & Hh & Hi).
    split; [exact Hh|]. rewrite Hi. apply in_or_app. right. left. reflexivity.
  - intros sid code c' Hstep. apply step_timer_effect in Hstep as (_ & Hh & Hi).
    split; [exact Hh|]. intros h Heq. rewrite Hi, Heq.
    apply cleared_handle_is_gone.
  - intros c' Hstep. apply step_timer_effect in Hstep as (_ & Hh & Hi).
    split; [exact Hh|]. intros h Heq. rewrite Hi, Heq.
    apply cleared_handle_is_gone.
  - intros Hguard.
    pose proof (run_keeps_single acts _ _ Hinv0 Hone0 Hguard Hrun) as Hone.
    split; [exact Hone|]. unfold single_heartbeat in Hone. rewrite Hone.
    destruct (heartbeatInterval c) eqn:E; simpl; split; intros H;
      try reflexivity; try discriminate.
    + apply Hiff. discriminate.
    + apply Hiff in H. congruence.
Qed.

Lemma heartbeat_follows_connection_witness :
  exists c,
    run reconnect_then_disconnect (new_client sample_entropy) = Some c
    /\ isConnected c = false /\ intervals c = []
    /\ (length (intervals c) = 1 <-> isConnected c = true).
Proof.
  exists (state_after reconnect_then_disconnect (new_client sample_entropy)).
  assert (Hrun : run reconnect_then_disconnect (new_client sample_entropy)
                 = Some (state_after reconnect_then_disconnect
                           (new_client sample_entropy)))
    by (vm_compute; reflexivity).
  split; [exact Hrun|].
  split; [vm_compute; reflexivity|]. split; [vm_compute; reflexivity|].
  destruct (heartbeat_follows_connection sample_entropy reconnect_then_disconnect
              _ Hrun) as (_ & _ & _ & _ & _ & H).
  apply H. vm_compute. reflexivity.
Defined.

(** C8, as stated, fails: [connect()] called twice creates two sockets, and
    when both report 'open' the first timer is left running beside the
    second, so two heartbeat timers run while the client is connected. *)
Lemma two_opens_leave_two_heartbeats :
  ~ (forall c, reachable c ->
               (length (intervals c) = 1 <-> isConnected c = true)).
Proof.
  intros H.
  assert (E : run [Connect; Connect; Open 0; Open 1] (new_client sample_entropy)
              = Some two_opens) by (vm_compute; reflexivity).
  destruct (H two_opens (ex_intro _ sample_entropy (ex_intro _ _ E))) as [_ H2].
  specialize (H2 eq_refl). vm_compute in H2. discriminate H2.
Qed.

End Heartbeat.

(* ================================================================= *)
(** ** The bridge *)

(** Naming the command behind each [send...] method. *)
Ltac as_invoke :=
  repeat match goal with
  | |- context [HeyGen.sendSpeak ?a] =>
      change (HeyGen.sendSpeak a) with (HeyGen.invoke (HeyGen.Speak a))
  | |- context [HeyGen.sendSpeakEnd ?a] =>
      change (HeyGen.sendSpeakEnd a) with (HeyGen.invoke (HeyGen.SpeakEnd a))
  | |- context [HeyGen.sendInterrupt] =>
      change HeyGen.sendInterrupt with (HeyGen.invoke HeyGen.Interrupt)
  | |- context [HeyGen.sendStartListening] =>
      change HeyGen.sendStartListening with (HeyGen.invoke HeyGen.StartListening)
  | |- context [HeyGen.sendStopListening] =>
      change HeyGen.sendStopListening with (HeyGen.invoke HeyGen.StopListening)
  | |- context [HeyGen.sendAudioBufferClear] =>
      change HeyGen.sendAudioBufferClear with (HeyGen.invoke HeyGen.AudioBufferClear)
  end.

(** Running the bridge's own code, up to the next call into the channel. *)
Ltac bridge_cbn :=
  cbv [bind ret modify gets throw Bridge.say] in *;
  cbn -[HeyGen.invoke HeyGen.sendSpeak HeyGen.sendSpeakEnd HeyGen.sendInterrupt
        HeyGen.sendStartListening HeyGen.sendStopListening
        HeyGen.sendAudioBufferClear HeyGen.delivered HeyGen.dropped
        HeyGen.generateEventId HeyGen.isConnectionOpen HeyGen.can_send
        Bridge.on_client Bridge.on_client_opt JS.truthy String.eqb] in *.

(** The same, also deciding comparisons of literal strings. *)
Ltac bridge_eval :=
  cbv [bind ret modify gets throw Bridge.say] in *;
  cbn -[HeyGen.invoke HeyGen.sendSpeak HeyGen.sendSpeakEnd HeyGen.sendInterrupt
        HeyGen.sendStartListening HeyGen.sendStopListening
        HeyGen.sendAudioBufferClear HeyGen.delivered HeyGen.dropped
        HeyGen.generateEventId HeyGen.isConnectionOpen HeyGen.can_send
        Bridge.on_client Bridge.on_client_opt JS.truthy] in *.

Section BridgeCalls.

Import Bridge.

Lemma on_client_open (cmd : HeyGen.Command)
      (b : Bridge) (c : HeyGen.Client) (sid : nat) :
  heygenClient b = Some c -> HeyGen.open_on c sid ->
  on_client (HeyGen.invoke cmd) b
  = (Ok (HeyGen.generateEventId (HeyGen.entropy c (HeyGen.ticks c))),
     set_heygenClient (Some (HeyGen.delivered cmd sid c)) b).
Proof.
  intros Hc Ho. unfold on_client. rewrite Hc, (invoke_open cmd c sid Ho).
  reflexivity.
Qed.

Lemma on_client_dropped (cmd : HeyGen.Command)
      (b : Bridge) (c : HeyGen.Client) :
  heygenClient b = Some c -> HeyGen.can_send c = false ->
  on_client (HeyGen.invoke cmd) b
  = (Ok (HeyGen.generateEventId (HeyGen.entropy c (HeyGen.ticks c))),
     set_heygenClient (Some (HeyGen.dropped cmd c)) b).
Proof.
  intros Hc Hn. unfold on_client. rewrite Hc, (invoke_dropped cmd c Hn).
  reflexivity.
Qed.

Lemma open_on_unique (c : HeyGen.Client) (sid : nat) :
  HeyGen.isConnectionOpen c = true -> HeyGen.ws c = Some sid ->
  HeyGen.open_on c sid.
Proof.
  intros Ho Hws. destruct (isConnectionOpen_inv c Ho) as (sid' & Hws' & Hc & Hr).
  assert (sid' = sid) by congruence. subst sid'. repeat split; assumption.
Qed.

End BridgeCalls.

(** The next call into an open channel is delivered. *)
Ltac deliver Ho :=
  as_invoke; erewrite on_client_open;
  [ | reflexivity | repeat apply delivered_open; exact Ho ]; bridge_cbn.

(** The next call into a channel that cannot send is dropped. *)
Ltac drop_command Hn :=
  as_invoke; erewrite on_client_dropped;
  [ | reflexivity | exact Hn ]; bridge_cbn.

Section BridgeEvents.

Import Bridge.

(** One audio chunk on an open channel: one [agent.speak] is delivered, and
    its identifier is kept only if no speech was in flight. *)
Lemma audio_chunk_step (b : Bridge) (c : HeyGen.Client) (sid : nat) (e : OpenAIEvent) :
  heygenClient b = Some c -> HeyGen.open_on c sid -> is_audio_chunk e = true ->
  exists b',
    processOpenAIEvent e b = (Ok tt, b')
    /\ heygenClient b' = Some (HeyGen.delivered (HeyGen.Speak (chunk_payload e)) sid c)
    /\ currentSpeakEventId b' =
       (if JS.truthy (currentSpeakEventId b) then currentSpeakEventId b
        else Some (HeyGen.generateEventId (HeyGen.entropy c (HeyGen.ticks c))))
    /\ isListening b' = isListening b.
Proof.
  intros Hc Ho He.
  pose proof (open_on_isConnectionOpen c sid Ho) as Hopen.
  destruct b as [cl cur lis tm con]. destruct e as [ty tx au ct de tr].
  unfold is_audio_chunk, is_audio_type, chunk_payload, case in *.
  bridge_cbn. subst cl.
  apply andb_true_iff in He as [Hty Hp].
  unfold processOpenAIEvent, case. bridge_cbn.
  unfold channel_open. bridge_cbn.
  rewrite Hopen. bridge_cbn. rewrite Hty. bridge_cbn.
  unfold JS.when_truthy. rewrite Hp.
  destruct (JS.or au de) as [p|] eqn:E; [|discriminate Hp].
  bridge_cbn. unfold handleOpenAIAudio. bridge_cbn.
  destruct (JS.truthy cur) eqn:Hcur; bridge_cbn; deliver Ho;
    eexists; repeat split; reflexivity.
Qed.

(** Further chunks while a speech is in flight. *)
Lemma chunks_while_speaking (events : list OpenAIEvent) :
  forall (b : Bridge) (c : HeyGen.Client) (sid : nat),
    heygenClient b = Some c -> HeyGen.open_on c sid ->
    JS.truthy (currentSpeakEventId b) = true ->
    forallb is_audio_chunk events = true ->
    exists b' c',
      process_all events b = (Ok tt, b')
      /\ heygenClient b' = Some c'
      /\ currentSpeakEventId b' = currentSpeakEventId b
      /\ HeyGen.wire c'
         = (HeyGen.wire c
            ++ speak_commands sid (HeyGen.entropy c) (HeyGen.ticks c) events)%list.
Proof.
  induction events as [|e rest IH]; intros b c sid Hc Ho Hcur Hall.
  - exists b, c. simpl. rewrite app_nil_r. repeat split; trivial.
  - simpl in Hall. apply andb_true_iff in Hall as [He Hrest].
    destruct (audio_chunk_step b c sid e Hc Ho He) as (b1 & Hstep & Hc1 & Hcur1 & _).
    rewrite Hcur in Hcur1.
    destruct (delivered_facts (HeyGen.Speak (chunk_payload e)) sid c)
      as (_ & _ & _ & Hent & Hticks & Hwire).
    destruct (IH b1 _ sid Hc1 (delivered_open _ sid c Ho)
                ltac:(rewrite Hcur1; exact Hcur) Hrest)
      as (b' & c' & Hrun & Hc' & Hcur' & Hwire').
    exists b', c'. cbn [process_all]. unfold bind. rewrite Hstep.
    split; [exact Hrun|]. split; [exact Hc'|].
    split; [congruence|].
    rewrite Hwire', Hwire, Hent, Hticks, <- app_assoc. reflexivity.
Qed.

(** C1: on an attached, open channel with no speech in flight, the first
    audio chunk makes the bridge speak under the identifier its [sendSpeak]
    returned, and any number of further chunks, each sent as one more
    [agent.speak] under the next generated identifier, leave
    [currentSpeakEventId] at that first identifier. *)
Theorem speech_id_is_that_of_first_chunk
    (b : Bridge) (c : HeyGen.Client) (sid : nat)
    (first : OpenAIEvent) (rest : list OpenAIEvent) :
  heygenClient b = Some c ->
  HeyGen.isConnectionOpen c = true -> HeyGen.ws c = Some sid ->
  currentSpeakEventId b = None ->
  is_audio_chunk first = true -> forallb is_audio_chunk rest = true ->
  exists id1 b1 bn,
    fst (HeyGen.sendSpeak (chunk_payload first) c) = Ok id1
    /\ processOpenAIEvent first b = (Ok tt, b1)
    /\ State.isSpeaking (getState b1) = true
    /\ State.currentSpeakEventId (getState b1) = Some id1
    /\ process_all rest b1 = (Ok tt, bn)
    /\ State.isSpeaking (getState bn) = true
    /\ State.currentSpeakEventId (getState bn) = Some id1
    /\ sent bn
       = (sent b ++ speak_commands sid (HeyGen.entropy c) (HeyGen.ticks c)
                      (first :: rest))%list.
Proof.
  intros Hc Hopen Hws Hcur Hfirst Hrest.
  pose proof (open_on_unique c sid Hopen Hws) as Ho.
  destruct (audio_chunk_step b c sid first Hc Ho Hfirst)
    as (b1 & Hstep & Hc1 & Hcur1 & _).
  rewrite Hcur in Hcur1. change (JS.truthy None) with false in Hcur1.
  destruct (delivered_facts (HeyGen.Speak (chunk_payload first)) sid c)
    as (_ & _ & _ & Hent & Hticks & Hwire).
  destruct (chunks_while_speaking rest b1 _ sid Hc1 (delivered_open _ sid c Ho)
              ltac:(rewrite Hcur1; apply generateEventId_truthy) Hrest)
    as (bn & cn & Hrun & Hcn & Hcurn & Hwiren).
  exists (HeyGen.generateEventId (HeyGen.entropy c (HeyGen.ticks c))), b1, bn.
  split.
  { change (HeyGen.sendSpeak (chunk_payload first))
      with (HeyGen.invoke (HeyGen.Speak (chunk_payload first))).
    rewrite (invoke_open _ c sid Ho). reflexivity. }
  split; [exact Hstep|].
  unfold getState. cbn [State.isSpeaking State.currentSpeakEventId].
  rewrite Hcurn, Hcur1.
  repeat (split; [first [reflexivity | exact Hrun]|]).
  unfold sent. rewrite Hcn, Hc, Hwiren, Hwire, Hent, Hticks, <- app_assoc.
  reflexivity.
Qed.

Lemma speech_id_is_that_of_first_chunk_witness :
  exists id1 b1 bn,
    fst (HeyGen.sendSpeak (chunk_payload chunk_A) HeyGen.open_client) = Ok id1
    /\ processOpenAIEvent chunk_A open_bridge = (Ok tt, b1)
    /\ State.isSpeaking (getState b1) = true
    /\ State.currentSpeakEventId (getState b1) = Some id1
    /\ process_all [chunk_B; chunk_A] b1 = (Ok tt, bn)
    /\ State.isSpeaking (getState bn) = true
    /\ State.currentSpeakEventId (getState bn) = Some id1
    /\ sent bn
       = (sent open_bridge
          ++ speak_commands 0 (HeyGen.entropy HeyGen.open_client)
               (HeyGen.ticks HeyGen.open_client) [chunk_A; chunk_B; chunk_A])%list.
Proof.
  apply (speech_id_is_that_of_first_chunk open_bridge HeyGen.open_client 0
           chunk_A [chunk_B; chunk_A]); vm_compute; reflexivity.
Defined.

(** A user text input on an open channel: [agent.start_listening] unless
    the bridge is listening already, then [agent.audio_buffer_clear]; this
    does not depend on the event carrying [text] or [content]. *)
Lemma input_text_effect (b : Bridge) (c : HeyGen.Client) (sid : nat) (e : OpenAIEvent) :
  heygenClient b = Some c -> HeyGen.open_on c sid -> case "input_text" e = true ->
  let id0 := HeyGen.generateEventId (HeyGen.entropy c (HeyGen.ticks c)) in
  let id1 := HeyGen.generateEventId (HeyGen.entropy c (S (HeyGen.ticks c))) in
  exists b',
    processOpenAIEvent e b = (Ok tt, b')
    /\ isListening b' = true
    /\ currentSpeakEventId b' = currentSpeakEventId b
    /\ sent b'
       = (sent b
          ++ if isListening b
             then [HeyGen.command sid HeyGen.AudioBufferClear id0]
             else [HeyGen.command sid HeyGen.StartListening id0;
                   HeyGen.command sid HeyGen.AudioBufferClear id1])%list.
Proof.
  intros Hc Ho Hty.
  pose proof (open_on_isConnectionOpen c sid Ho) as Hopen.
  destruct b as [cl cur lis tm con]. destruct e as [ty tx au ct de tr].
  unfold case in *. bridge_cbn. subst cl.
  apply String.eqb_eq in Hty. subst ty.
  unfold processOpenAIEvent, case. bridge_eval.
  unfold channel_open. bridge_eval. rewrite Hopen. bridge_eval.
  unfold handleUserTextInput. bridge_eval.
  unfold sent. bridge_eval.
  destruct lis; bridge_eval; repeat deliver Ho;
    (eexists; split; [reflexivity|]); bridge_eval;
    rewrite ?delivered_wire, ?delivered_entropy, ?delivered_ticks, <- ?app_assoc;
    repeat split; reflexivity.
Qed.

(** C7: with an attached, open channel and [isListening] false, the event
    [{type: "input_text", text: "hello"}] puts exactly two commands on the
    wire, [agent.start_listening] then [agent.audio_buffer_clear], and
    [isListening] is true afterwards. *)
Theorem input_text_hello_issues_two_commands
    (b : Bridge) (c : HeyGen.Client) (sid : nat) :
  heygenClient b = Some c ->
  HeyGen.isConnectionOpen c = true -> HeyGen.ws c = Some sid ->
  isListening b = false ->
  exists b',
    processOpenAIEvent input_text_hello b = (Ok tt, b')
    /\ sent b'
       = (sent b
          ++ [HeyGen.command sid HeyGen.StartListening
                (HeyGen.generateEventId (HeyGen.entropy c (HeyGen.ticks c)));
              HeyGen.command sid HeyGen.AudioBufferClear
                (HeyGen.generateEventId (HeyGen.entropy c (S (HeyGen.ticks c))))])%list
    /\ State.isListening (getState b') = true.
Proof.
  intros Hc Hopen Hws Hl.
  destruct (input_text_effect b c sid input_text_hello Hc
              (open_on_unique c sid Hopen Hws) eq_refl)
    as (b' & Hrun & Hl' & _ & Hsent).
  rewrite Hl in Hsent. exists b'. repeat split; assumption.
Qed.

Lemma input_text_hello_issues_two_commands_witness :
  exists b',
    processOpenAIEvent input_text_hello open_bridge = (Ok tt, b')
    /\ map (fun m => HeyGen.type (snd m)) (sent b')
       = ["agent.start_listening"; "agent.audio_buffer_clear"]
    /\ State.isListening (getState b') = true.
Proof.
  destruct (input_text_hello_issues_two_commands open_bridge HeyGen.open_client 0)
    as (b' & Hrun & Hsent & Hl); try (vm_compute; reflexivity).
  exists b'. rewrite Hsent. repeat split; trivial.
Defined.

(** C9, as stated, fails: an [input_text] event with neither [text] nor
    [content], relayed to a bridge that is not listening, puts two commands
    on the wire and sets [isListening]. *)
Lemma input_text_without_text_is_not_a_noop :
  ~ (forall b e,
       payload_missing e = true ->
       fst (processOpenAIEvent e b) = Ok tt
       /\ sent (snd (processOpenAIEvent e b)) = sent b
       /\ isListening (snd (processOpenAIEvent e b)) = isListening b
       /\ currentSpeakEventId (snd (processOpenAIEvent e b)) = currentSpeakEventId b).
Proof.
  intros H.
  destruct (H open_bridge (event "input_text") eq_refl) as (_ & _ & Hl & _).
  vm_compute in Hl. discriminate Hl.
Qed.

(** C9, as amended.  An audio-chunk event with neither [audio] nor [delta]
    (or with empty ones), and a text event with neither [text] nor
    [delta], are no-ops on every bridge: the call returns, the bridge is
    left as it was but for the lines added to the console, and nothing
    reaches the channel.  An [input_text] event is handled the same
    whether or not it carries [text] or [content]: on an open channel it
    issues [agent.start_listening] unless the bridge is listening, then
    [agent.audio_buffer_clear], and [isListening] is true afterwards. *)
Theorem missing_payload_effects (b : Bridge) (e : OpenAIEvent) :
  (is_audio_type e = true -> JS.truthy (JS.or (audio e) (delta e)) = false ->
   exists lines,
     lines <> []
     /\ processOpenAIEvent e b = (Ok tt, set_console (console b ++ lines) b))
  /\ (is_text_type e = true -> JS.truthy (JS.or (text e) (delta e)) = false ->
      exists lines,
        lines <> []
        /\ processOpenAIEvent e b = (Ok tt, set_console (console b ++ lines) b))
  /\ (case "input_text" e = true ->
      forall c sid,
        heygenClient b = Some c -> HeyGen.open_on c sid ->
        exists b',
          processOpenAIEvent e b = (Ok tt, b')
          /\ isListening b' = true
          /\ currentSpeakEventId b' = currentSpeakEventId b
          /\ sent b'
             = (sent b
                ++ if isListening b
                   then [HeyGen.command sid HeyGen.AudioBufferClear
                           (HeyGen.generateEventId (HeyGen.entropy c (HeyGen.ticks c)))]
                   else [HeyGen.command sid HeyGen.StartListening
                           (HeyGen.generateEventId (HeyGen.entropy c (HeyGen.ticks c)));
                         HeyGen.command sid HeyGen.AudioBufferClear
                           (HeyGen.generateEventId
                              (HeyGen.entropy c (S (HeyGen.ticks c))))])%list).
Proof.
  split; [|split].
  - intros Hty Hp.
    destruct b as [cl cur lis tm con]. destruct e as [ty tx au ct de tr].
    unfold is_audio_type, case in *. bridge_cbn.
    unfold processOpenAIEvent, case. bridge_cbn.
    destruct (channel_open _); bridge_cbn.
    + rewrite Hty. bridge_cbn. unfold JS.when_truthy. rewrite Hp. bridge_cbn.
      unfold set_console. bridge_cbn. rewrite <- !app_assoc.
      eexists. split; [|reflexivity]. discriminate.
    + unfold set_console. bridge_cbn. rewrite <- !app_assoc.
      eexists. split; [|reflexivity]. discriminate.
  - intros Hty Hp.
    destruct b as [cl cur lis tm con]. destruct e as [ty tx au ct de tr].
    unfold is_text_type, case in *. bridge_cbn.
    unfold processOpenAIEvent, case. bridge_cbn.
    destruct (channel_open _); bridge_cbn.
    + apply orb_true_iff in Hty as [Hty|Hty]; apply String.eqb_eq in Hty;
        subst ty; bridge_eval; unfold JS.when_truthy; rewrite Hp; bridge_eval;
        unfold set_console; bridge_eval; rewrite <- !app_assoc;
        (eexists; split; [|reflexivity]); discriminate.
    + unfold set_console. bridge_cbn. rewrite <- !app_assoc.
      eexists. split; [|reflexivity]. discriminate.
  - intros Hty c sid Hc Ho. exact (input_text_effect b c sid e Hc Ho Hty).
Qed.

Lemma missing_payload_effects_witness :
  (exists lines,
     lines <> []
     /\ processOpenAIEvent (event "response.audio") open_bridge
        = (Ok tt, set_console (console open_bridge ++ lines) open_bridge))
  /\ (exists b',
        processOpenAIEvent (event "input_text") open_bridge = (Ok tt, b')
        /\ isListening b' = true
        /\ map (fun m => HeyGen.type (snd m)) (sent b')
           = ["agent.start_listening"; "agent.audio_buffer_clear"]).
Proof.
  destruct (missing_payload_effects open_bridge (event "response.audio"))
    as (Haudio & _ & _).
  destruct (missing_payload_effects open_bridge (event "input_text"))
    as (_ & _ & Hinput).
  split; [exact (Haudio eq_refl eq_refl)|].
  destruct (Hinput eq_refl HeyGen.open_client 0 eq_refl)
    as (b' & Hrun & Hl & _ & Hsent).
  { repeat split; vm_compute; reflexivity. }
  exists b'. rewrite Hsent. repeat split; trivial.
Defined.

End BridgeEvents.

(* ================================================================= *)
(** ** The direct controls *)

Section BridgeControls.

Import Bridge.

(** C3, as stated, fails: on a bridge with no channel [speakText] raises. *)
Lemma speakText_without_channel_throws :
  ~ (forall b action,
       channel_open b = false ->
       fst (control action b) = Ok tt
       /\ isListening (snd (control action b)) = isListening b
       /\ currentSpeakEventId (snd (control action b)) = currentSpeakEventId b).
Proof.
  intros H.
  destruct (H detached_bridge (speak "hi") eq_refl) as (Hthrows & _).
  vm_compute in Hthrows. discriminate Hthrows.
Qed.

(** C3, as amended.  On a bridge with no channel attached, [interrupt],
    [startListening] and [stopListening] return and change nothing, and
    [speakText] raises 'HeyGen client not available', changing nothing.
    On a bridge whose channel fails the test of [send] (no socket, or
    [isConnected] false) each of the four controls returns and nothing
    reaches the wire, but the bridge records the command as issued:
    [speakText] stores the generated identifier, [interrupt] clears a
    stored identifier, [startListening] sets and [stopListening] clears
    [isListening]. *)
Theorem controls_without_connection (b : Bridge) :
  (heygenClient b = None ->
     interrupt b = (Ok tt, b) /\ startListening b = (Ok tt, b)
     /\ stopListening b = (Ok tt, b)
     /\ forall text, speakText text b = (Err "HeyGen client not available", b))
  /\ (forall c, heygenClient b = Some c -> HeyGen.can_send c = false ->
        forall action,
        exists b',
          control action b = (Ok tt, b')
          /\ sent b' = sent b
          /\ currentSpeakEventId b' =
             match action with
             | speak _ =>
                 Some (HeyGen.generateEventId (HeyGen.entropy c (HeyGen.ticks c)))
             | do_interrupt =>
                 if JS.truthy (currentSpeakEventId b) then None
                 else currentSpeakEventId b
             | _ => currentSpeakEventId b
             end
          /\ isListening b' =
             match action with
             | start_listening => true
             | stop_listening => false
             | _ => isListening b
             end).
Proof.
  destruct b as [cl cur lis tm con]. split.
  - bridge_eval. intros ->.
    unfold interrupt, startListening, stopListening, speakText. bridge_eval.
    repeat split; reflexivity.
  - bridge_eval. intros c -> Hn action.
    destruct action as [text| | |]; unfold control, sent.
    + unfold speakText. bridge_eval. drop_command Hn.
      eexists. repeat split; reflexivity.
    + unfold interrupt. bridge_eval.
      destruct (JS.truthy cur); bridge_eval; [drop_command Hn|];
        eexists; repeat split; reflexivity.
    + unfold startListening. bridge_eval.
      destruct lis; bridge_eval; [|drop_command Hn];
        eexists; repeat split; reflexivity.
    + unfold stopListening. bridge_eval.
      destruct lis; bridge_eval; [drop_command Hn|];
        eexists; repeat split; reflexivity.
Qed.

Lemma controls_without_connection_witness :
  speakText "hi" detached_bridge = (Err "HeyGen client not available", detached_bridge)
  /\ exists b',
       control start_listening idle_bridge = (Ok tt, b')
       /\ sent b' = [] /\ isListening b' = true.
Proof.
  split.
  - destruct (controls_without_connection detached_bridge) as [H _].
    apply (H eq_refl).
  - destruct (controls_without_connection idle_bridge) as [_ H].
    destruct (H _ eq_refl eq_refl start_listening) as (b' & Hrun & Hs & _ & Hl).
    exists b'. repeat split; assumption.
Defined.

(** C10: when the callback [speakText] scheduled runs after
    [currentSpeakEventId] has been cleared, it makes no call into the
    channel, so no [agent.speak_end] is issued, and [currentSpeakEventId]
    stays null.  On an open channel each of [interrupt()], a
    [response.done] event, and the provider events [agent.speak_ended] and
    [agent.speak_interrupted], arriving after [speakText], clears the
    identifier and so silences the callback. *)
Theorem cleared_speech_is_not_ended_by_timer :
  (forall b,
     currentSpeakEventId b = None ->
     exists b',
       speak_timer_fires b = (Ok tt, b')
       /\ heygenClient b' = heygenClient b
       /\ currentSpeakEventId b' = None
       /\ isListening b' = isListening b)
  /\ (forall b c sid text how,
        heygenClient b = Some c -> HeyGen.open_on c sid ->
        exists b1 b2 b3,
          speakText text b = (Ok tt, b1)
          /\ currentSpeakEventId b1
             = Some (HeyGen.generateEventId (HeyGen.entropy c (HeyGen.ticks c)))
          /\ clear_by how b1 = (Ok tt, b2)
          /\ currentSpeakEventId b2 = None
          /\ speak_timer_fires b2 = (Ok tt, b3)
          /\ sent b3 = sent b2
          /\ currentSpeakEventId b3 = None).
Proof.
  split.
  - intros [cl cur lis tm con]. bridge_eval. intros ->.
    unfold speak_timer_fires, speakText_callback. bridge_eval.
    change (JS.truthy None) with false. bridge_eval.
    eexists. repeat split; reflexivity.
  - intros [cl cur lis tm con] c sid text how. bridge_eval. intros -> Ho.
    pose proof (open_on_isConnectionOpen _ _
                  (delivered_open (HeyGen.Speak "") sid c Ho)) as Hopen.
    unfold speakText. bridge_eval. deliver Ho.
    destruct how;
      (eexists; eexists; eexists; split; [reflexivity|]; split; [reflexivity|]);
      unfold speak_timer_fires, speakText_callback, clear_by.
    + unfold interrupt. bridge_eval. rewrite generateEventId_truthy.
      bridge_eval. deliver Ho. change (JS.truthy None) with false.
      bridge_eval. repeat split; reflexivity.
    + unfold processOpenAIEvent, handleOpenAIResponseDone, channel_open, case.
      bridge_eval. rewrite Hopen. bridge_eval.
      rewrite generateEventId_truthy. bridge_eval. deliver Ho.
      change (JS.truthy None) with false.
      bridge_eval. repeat split; reflexivity.
    + unfold listener. bridge_eval. change (JS.truthy None) with false.
      bridge_eval. repeat split; reflexivity.
    + unfold listener. bridge_eval. change (JS.truthy None) with false.
      bridge_eval. repeat split; reflexivity.
Qed.

Lemma cleared_speech_is_not_ended_by_timer_witness :
  exists b1 b2 b3,
    speakText "hi" open_bridge = (Ok tt, b1)
    /\ currentSpeakEventId b1 = Some "1700000000000_4fzyo82"
    /\ clear_by by_interrupt b1 = (Ok tt, b2)
    /\ currentSpeakEventId b2 = None
    /\ speak_timer_fires b2 = (Ok tt, b3)
    /\ sent b3 = sent b2
    /\ currentSpeakEventId b3 = None.
Proof.
  destruct cleared_speech_is_not_ended_by_timer as [_ H].
  apply (H open_bridge HeyGen.open_client 0 "hi" by_interrupt eq_refl).
  repeat split; vm_compute; reflexivity.
Defined.

End BridgeControls.

(* ================================================================= *)
(** ** More on the events the bridge relays *)

Section MoreEvents.

Import Bridge.

Lemma closed_channel_skips_every_event_helper (b : Bridge) (e : OpenAIEvent) :
  channel_open b = false ->
  processOpenAIEvent e b = (Ok tt, logging (skipped_lines e) b).
Proof.
  intros Hclosed. destruct b as [cl cur lis tm con].
  unfold processOpenAIEvent. bridge_cbn.
  unfold channel_open in *. bridge_cbn. rewrite Hclosed. bridge_cbn.
  unfold logging, skipped_lines, set_console. bridge_cbn.
  rewrite <- !app_assoc. reflexivity.
Qed.

(** X1: while no channel is attached or the channel is not open, every
    event is skipped: the call returns, three lines are written, and
    nothing else of the bridge changes, whatever the type of the event; in
    particular nothing is sent and a speech in flight is not ended. *)
Theorem closed_channel_skips_every_event (b : Bridge) (e : OpenAIEvent) :
  channel_open b = false ->
  processOpenAIEvent e b = (Ok tt, logging (skipped_lines e) b)
  /\ sent (logging (skipped_lines e) b) = sent b
  /\ getState (logging (skipped_lines e) b) = getState b.
Proof.
  intros Hclosed. split; [|split; reflexivity].
  apply closed_channel_skips_every_event_helper. exact Hclosed.
Qed.

Lemma closed_channel_skips_every_event_witness :
  processOpenAIEvent (event "response.done") (set_currentSpeakEventId (Some "X") idle_bridge)
  = (Ok tt, logging (skipped_lines (event "response.done"))
              (set_currentSpeakEventId (Some "X") idle_bridge)).
Proof.
  apply (closed_channel_skips_every_event
           (set_currentSpeakEventId (Some "X") idle_bridge) (event "response.done")).
  vm_compute. reflexivity.
Defined.

Lemma response_done_step (b : Bridge) (c : HeyGen.Client) (sid : nat) (e : OpenAIEvent) :
  heygenClient b = Some c -> HeyGen.open_on c sid -> case "response.done" e = true ->
  exists b',
    processOpenAIEvent e b = (Ok tt, b')
    /\ heygenClient b'
       = Some (if JS.truthy (currentSpeakEventId b)
               then HeyGen.delivered (HeyGen.SpeakEnd None) sid c else c)
    /\ currentSpeakEventId b'
       = (if JS.truthy (currentSpeakEventId b) then None else currentSpeakEventId b)
    /\ isListening b' = isListening b.
Proof.
  intros Hc Ho Hty.
  pose proof (open_on_isConnectionOpen c sid Ho) as Hopen.
  destruct b as [cl cur lis tm con]. destruct e as [ty tx au ct de tr].
  unfold case in *. bridge_cbn. subst cl.
  apply String.eqb_eq in Hty. subst ty.
  unfold processOpenAIEvent, case. bridge_eval.
  unfold channel_open. bridge_eval. rewrite Hopen. bridge_eval.
  unfold handleOpenAIResponseDone. bridge_eval.
  destruct (JS.truthy cur); bridge_eval; [deliver Ho|];
    eexists; repeat split; reflexivity.
Qed.

(** X2: a [response.done] event on an open channel ends the speech in
    flight with exactly one [agent.speak_end] and clears its identifier;
    with no speech in flight it sends nothing.  [isListening] is kept. *)
Theorem response_done_ends_speech
    (b : Bridge) (c : HeyGen.Client) (sid : nat) (e : OpenAIEvent) :
  heygenClient b = Some c -> HeyGen.open_on c sid -> case "response.done" e = true ->
  exists b',
    processOpenAIEvent e b = (Ok tt, b')
    /\ currentSpeakEventId b'
       = (if JS.truthy (currentSpeakEventId b) then None else currentSpeakEventId b)
    /\ isListening b' = isListening b
    /\ sent b'
       = (sent b
          ++ if JS.truthy (currentSpeakEventId b)
             then [HeyGen.command sid (HeyGen.SpeakEnd None)
                     (HeyGen.generateEventId (HeyGen.entropy c (HeyGen.ticks c)))]
             else [])%list.
Proof.
  intros Hc Ho Hty.
  destruct (response_done_step b c sid e Hc Ho Hty) as (b' & Hrun & Hc' & Hcur & Hl).
  exists b'. repeat split; trivial.
  unfold sent. rewrite Hc', Hc.
  destruct (JS.truthy (currentSpeakEventId b)).
  - apply delivered_wire.
  - rewrite app_nil_r. reflexivity.
Qed.

Lemma response_done_ends_speech_witness :
  exists b',
    processOpenAIEvent (event "response.done") speaking_bridge = (Ok tt, b')
    /\ currentSpeakEventId b' = None
    /\ map (fun m => HeyGen.type (snd m)) (sent b') = ["agent.speak_end"].
Proof.
  destruct (response_done_ends_speech speaking_bridge HeyGen.open_client 0
              (event "response.done") eq_refl)
    as (b' & Hrun & Hcur & _ & Hsent); try (repeat split; vm_compute; reflexivity).
  exists b'. rewrite Hsent. repeat split; trivial.
Defined.

Lemma input_audio_step (b : Bridge) (c : HeyGen.Client) (sid : nat) (e : OpenAIEvent) :
  heygenClient b = Some c -> HeyGen.open_on c sid -> case "input_audio" e = true ->
  exists b',
    processOpenAIEvent e b = (Ok tt, b')
    /\ heygenClient b'
       = Some (let c1 := if JS.truthy (currentSpeakEventId b)
                         then HeyGen.delivered HeyGen.Interrupt sid c else c in
               if isListening b then c1
               else HeyGen.delivered HeyGen.StartListening sid c1)
    /\ currentSpeakEventId b'
       = (if JS.truthy (currentSpeakEventId b) then None else currentSpeakEventId b)
    /\ isListening b' = true.
Proof.
  intros Hc Ho Hty.
  pose proof (open_on_isConnectionOpen c sid Ho) as Hopen.
  destruct b as [cl cur lis tm con]. destruct e as [ty tx au ct de tr].
  unfold case in *. bridge_cbn. subst cl.
  apply String.eqb_eq in Hty. subst ty.
  unfold processOpenAIEvent, case. bridge_eval.
  unfold channel_open. bridge_eval. rewrite Hopen. bridge_eval.
  unfold handleUserAudioInput. bridge_eval.
  destruct (JS.truthy cur); bridge_eval; [deliver Ho|];
    (destruct lis; bridge_eval; [|deliver Ho]);
    eexists; repeat split; reflexivity.
Qed.

(** X3: an [input_audio] event on an open channel interrupts the speech in
    flight, if any, with one [agent.interrupt], then starts listening with
    one [agent.start_listening] unless the bridge is listening already;
    afterwards [isListening] is true and no speech is in flight. *)
Theorem input_audio_interrupts_then_listens
    (b : Bridge) (c : HeyGen.Client) (sid : nat) (e : OpenAIEvent) :
  heygenClient b = Some c -> HeyGen.open_on c sid -> case "input_audio" e = true ->
  let speaking := JS.truthy (currentSpeakEventId b) in
  exists b',
    processOpenAIEvent e b = (Ok tt, b')
    /\ currentSpeakEventId b' = (if speaking then None else currentSpeakEventId b)
    /\ isListening b' = true
    /\ sent b'
       = (sent b
          ++ (if speaking
              then [HeyGen.command sid HeyGen.Interrupt
                      (HeyGen.generateEventId (HeyGen.entropy c (HeyGen.ticks c)))]
              else [])
          ++ (if isListening b then []
              else [HeyGen.command sid HeyGen.StartListening
                      (HeyGen.generateEventId
                         (HeyGen.entropy c
                            ((if speaking then 1 else 0) + HeyGen.ticks c)))]))%list.
Proof.
  intros Hc Ho Hty speaking.
  destruct (input_audio_step b c sid e Hc Ho Hty) as (b' & Hrun & Hc' & Hcur & Hl).
  exists b'. repeat split; trivial.
  unfold sent. rewrite Hc', Hc. subst speaking. cbv zeta.
  destruct (JS.truthy (currentSpeakEventId b)); destruct (isListening b);
    rewrite ?delivered_wire, ?delivered_entropy, ?delivered_ticks, ?app_nil_r,
      <- ?app_assoc; reflexivity.
Qed.

Lemma input_audio_interrupts_then_listens_witness :
  exists b',
    processOpenAIEvent (event "input_audio") speaking_bridge = (Ok tt, b')
    /\ currentSpeakEventId b' = None
    /\ isListening b' = true
    /\ map (fun m => HeyGen.type (snd m)) (sent b')
       = ["agent.interrupt"; "agent.start_listening"].
Proof.
  destruct (input_audio_interrupts_then_listens speaking_bridge HeyGen.open_client 0
              (event "input_audio") eq_refl)
    as (b' & Hrun & Hcur & Hl & Hsent); try (repeat split; vm_compute; reflexivity).
  exists b'. rewrite Hsent. repeat split; trivial.
Defined.

Lemma input_audio_stop_step (b : Bridge) (c : HeyGen.Client) (sid : nat) (e : OpenAIEvent) :
  heygenClient b = Some c -> HeyGen.open_on c sid -> case "input_audio.stop" e = true ->
  exists b',
    processOpenAIEvent e b = (Ok tt, b')
    /\ heygenClient b'
       = Some (if isListening b
               then HeyGen.delivered HeyGen.StopListening sid c else c)
    /\ currentSpeakEventId b' = currentSpeakEventId b
    /\ isListening b' = false.
Proof.
  intros Hc Ho Hty.
  pose proof (open_on_isConnectionOpen c sid Ho) as Hopen.
  destruct b as [cl cur lis tm con]. destruct e as [ty tx au ct de tr].
  unfold case in *. bridge_cbn. subst cl.
  apply String.eqb_eq in Hty. subst ty.
  unfold processOpenAIEvent, case. bridge_eval.
  unfold channel_open. bridge_eval. rewrite Hopen. bridge_eval.
  unfold handleUserAudioStop. bridge_eval.
  destruct lis; bridge_eval; [deliver Ho|];
    eexists; repeat split; reflexivity.
Qed.

(** X4: an [input_audio.stop] event on an open channel sends one
    [agent.stop_listening] when the bridge is listening and nothing
    otherwise; afterwards [isListening] is false and the speech in flight is
    untouched. *)
Theorem input_audio_stop_stops_listening
    (b : Bridge) (c : HeyGen.Client) (sid : nat) (e : OpenAIEvent) :
  heygenClient b = Some c -> HeyGen.open_on c sid -> case "input_audio.stop" e = true ->
  exists b',
    processOpenAIEvent e b = (Ok tt, b')
    /\ currentSpeakEventId b' = currentSpeakEventId b
    /\ isListening b' = false
    /\ sent b'
       = (sent b
          ++ if isListening b
             then [HeyGen.command sid HeyGen.StopListening
                     (HeyGen.generateEventId (HeyGen.entropy c (HeyGen.ticks c)))]
             else [])%list.
Proof.
  intros Hc Ho Hty.
  destruct (input_audio_stop_step b c sid e Hc Ho Hty) as (b' & Hrun & Hc' & Hcur & Hl).
  exists b'. repeat split; trivial.
  unfold sent. rewrite Hc', Hc.
  destruct (isListening b);
    rewrite ?delivered_wire, ?app_nil_r; reflexivity.
Qed.

Lemma input_audio_stop_stops_listening_witness :
  exists b',
    processOpenAIEvent (event "input_audio.stop") listening_bridge = (Ok tt, b')
    /\ isListening b' = false
    /\ map (fun m => HeyGen.type (snd m)) (sent b') = ["agent.stop_listening"].
Proof.
  destruct (input_audio_stop_stops_listening listening_bridge HeyGen.open_client 0
              (event "input_audio.stop") eq_refl)
    as (b' & Hrun & _ & Hl & Hsent); try (repeat split; vm_compute; reflexivity).
  exists b'. rewrite Hsent. repeat split; trivial.
Defined.









End MoreEvents.

(* ================================================================= *)
(** ** More on the life of the channel *)

Section MoreChannel.

Import HeyGen.

Lemma readyState_after_set (l : list (nat * ReadyState)) (sid : nat) (r : ReadyState) :
  existsb (fun p => Nat.eqb (fst p) sid) l = true ->
  match find (fun p => Nat.eqb (fst p) sid)
          (map (fun p => if Nat.eqb (fst p) sid then (sid, r) else p) l) with
  | Some p => snd p
  | None => CLOSED
  end = r.
Proof.
  induction l as [|[k v] l IH]; simpl; [discriminate|].
  destruct (Nat.eqb k sid) eqn:E; simpl.
  - intros _. rewrite Nat.eqb_refl. reflexivity.
  - intros H. rewrite E. apply IH. exact H.
Qed.

Lemma dropped_socket_is_gone (l : list (nat * ReadyState)) (sid : nat) :
  existsb (fun p => Nat.eqb (fst p) sid)
    (filter (fun p => negb (Nat.eqb (fst p) sid)) l) = false.
Proof.
  induction l as [|[k v] l IH]; simpl; [reflexivity|].
  destruct (Nat.eqb k sid) eqn:E; simpl; [exact IH|].
  rewrite E. exact IH.
Qed.

(** X7: when a connecting socket reports 'open', the client is marked
    connected, the reconnection counter is back to zero, a new heartbeat
    timer runs under the kept handle, [connected] is emitted once, and if
    the socket is the current one the channel tests as open. *)
Theorem open_marks_connected (c : Client) (sid : nat) :
  is_live c sid = true -> readyState c sid = CONNECTING ->
  exists c',
    step (Open sid) c = Some c'
    /\ isConnected c' = true
    /\ reconnectAttempts c' = 0%Z
    /\ heartbeatInterval c' = Some (next_timer c)
    /\ In (next_timer c) (intervals c')
    /\ emitted c' = (emitted c ++ [connected])%list
    /\ (ws c = Some sid -> isConnectionOpen c' = true).
Proof.
  intros Hlive Hr. unfold step. rewrite Hlive, Hr. simpl ReadyState_eqb. simpl andb.
  eexists. split; [reflexivity|].
  destruct c as [w n ic hb so ns to iv nt wi co em en ti].
  unfold on_open, startHeartbeat, setInterval, emit, put, set_readyState,
    isConnectionOpen, is_live, readyState in *. fields.
  repeat split; try reflexivity.
  - apply in_or_app. right. left. reflexivity.
  - intros ->. pose proof (readyState_after_set so sid OPEN) as E.
    cbv [fst snd] in E. rewrite (E Hlive). reflexivity.
Qed.

Lemma open_marks_connected_witness :
  exists c',
    step (Open 0) connecting_client = Some c'
    /\ isConnected c' = true
    /\ reconnectAttempts c' = 0%Z
    /\ heartbeatInterval c' = Some 0
    /\ emitted c' = [connected]
    /\ isConnectionOpen c' = true.
Proof.
  destruct (open_marks_connected connecting_client 0 eq_refl eq_refl)
    as (c' & Hstep & Hc & Ha & Hh & _ & He & Ho).
  exists c'. repeat split; trivial. apply Ho. reflexivity.
Defined.

(** X8: a closure with the code [disconnect()] closes with (1000) never
    schedules a reconnection, whatever the reconnection counter; it marks
    the client disconnected, clears the heartbeat handle and forgets the
    socket. *)
Theorem deliberate_closure_never_reconnects (c : Client) (sid : nat) :
  is_live c sid = true ->
  exists c',
    step (Close sid 1000) c = Some c'
    /\ timeouts c' = timeouts c
    /\ reconnectAttempts c' = reconnectAttempts c
    /\ isConnected c' = false
    /\ heartbeatInterval c' = None
    /\ is_live c' sid = false.
Proof.
  intros Hlive. unfold step. rewrite Hlive.
  eexists. split; [reflexivity|].
  destruct (on_close_fields 1000 (drop_socket sid c))
    as (Hc & Hh & Ha & Hso & _ & _ & Hto).
  cbv zeta in *. rewrite Hto, Ha, Hc, Hh. simpl negb. simpl andb.
  repeat split; try reflexivity.
  unfold is_live. rewrite Hso. apply dropped_socket_is_gone.
Qed.

Lemma deliberate_closure_never_reconnects_witness :
  exists c',
    step (Close 0 1000) (disconnect open_client) = Some c'
    /\ timeouts c' = []
    /\ isConnected c' = false
    /\ is_live c' 0 = false.
Proof.
  destruct (deliberate_closure_never_reconnects (disconnect open_client) 0)
    as (c' & Hstep & Ht & _ & Hc & _ & Hl); [vm_compute; reflexivity|].
  exists c'. repeat split; trivial.
Defined.

Lemma disconnect_fields (c : Client) :
  let c' := disconnect c in
  ws c' = None /\ isConnected c' = false /\ heartbeatInterval c' = None
  /\ timeouts c' = timeouts c /\ wire c' = wire c
  /\ reconnectAttempts c' = reconnectAttempts c
  /\ next_socket c' = next_socket c.
Proof.
  destruct c as [w n ic hb so ns to iv nt wi co em en ti].
  unfold disconnect, stopHeartbeat, clearInterval, ws_close, set_readyState. fields.
  destruct hb; fields;
    (destruct w as [sid|]; fields;
     [match goal with |- context [readyState ?x ?y] => destruct (readyState x y) end|]);
    fields; repeat split; reflexivity.
Qed.

(** X9: [disconnect()] is idempotent, and after it the client holds no
    socket, is marked disconnected, has no heartbeat handle, tests as not
    open, and drops every command. *)
Theorem disconnect_is_idempotent (c : Client) :
  disconnect (disconnect c) = disconnect c
  /\ ws (disconnect c) = None
  /\ isConnected (disconnect c) = false
  /\ heartbeatInterval (disconnect c) = None
  /\ isConnectionOpen (disconnect c) = false
  /\ forall cmd,
       wire (snd (invoke cmd (disconnect c))) = wire c
       /\ exists id, fst (invoke cmd (disconnect c)) = Ok id.
Proof.
  destruct (disconnect_fields c) as (Hw & Hc & Hh & _ & Hwire & _).
  cbv zeta in *.
  split.
  { remember (disconnect c) as d eqn:E. clear E.
    destruct d as [w n ic hb so ns to iv nt wi co em en ti].
    cbn in Hw, Hc, Hh. subst w ic hb. reflexivity. }
  repeat (split; [assumption|]).
  intros cmd.
  rewrite invoke_dropped by (unfold can_send; rewrite Hw; reflexivity).
  split; [exact Hwire | eexists; reflexivity].
Qed.

(** X10: [disconnect()] does not cancel a reconnection that an earlier
    abnormal closure scheduled: the timer stays pending, and when it fires
    after the disconnect the client counts one more attempt and dials a new
    socket, which becomes its current one. *)
Theorem reconnection_survives_disconnect (c : Client) (i : nat) (d : Z) :
  nth_error (timeouts c) i = Some d ->
  timeouts (disconnect c) = timeouts c
  /\ exists c',
       step (Fire i) (disconnect c) = Some c'
       /\ ws c' = Some (next_socket c)
       /\ is_live c' (next_socket c) = true
       /\ reconnectAttempts c' = (reconnectAttempts c + 1)%Z.
Proof.
  intros Hnth.
  destruct (disconnect_fields c) as (_ & _ & _ & Ht & _ & Ha & Hn).
  cbv zeta in *. split; [exact Ht|].
  unfold step. rewrite Ht, Hnth. eexists. split; [reflexivity|].
  remember (disconnect c) as dc eqn:E. clear E.
  destruct dc as [w n ic hb so ns to iv nt wi co em en ti].
  cbn in Ht, Ha, Hn. subst to n ns.
  unfold reconnect, connect, new_WebSocket, put, is_live. fields.
  repeat split; try reflexivity.
  rewrite existsb_app. simpl. rewrite Nat.eqb_refl. apply orb_true_r.
Qed.

Lemma reconnection_survives_disconnect_witness :
  exists c',
    step (Fire 0)
      (disconnect (state_after [Connect; Open 0; Close 0 1006%Z]
                     (new_client sample_entropy)))
    = Some c'
    /\ ws c' = Some 1 /\ is_live c' 1 = true /\ reconnectAttempts c' = 1%Z.
Proof.
  destruct (reconnection_survives_disconnect
              (state_after [Connect; Open 0; Close 0 1006%Z] (new_client sample_entropy))
              0 0%Z)
    as (_ & c' & Hstep & Hw & Hl & Ha); [vm_compute; reflexivity|].
  exists c'. split; [exact Hstep|]. repeat split; assumption.
Defined.

(** X11: on a client whose current socket is open, every command operation
    puts exactly one envelope on the wire, of the command's type and under
    the identifier the operation returns; the channel stays open. *)
Theorem command_delivered_when_open (cmd : Command) (c : Client) (sid : nat) :
  open_on c sid ->
  exists id c',
    invoke cmd c = (Ok id, c')
    /\ id = generateEventId (entropy c (ticks c))
    /\ wire c' = (wire c ++ [(sid, {| type := command_type cmd; event_id := id;
                                      audio := command_audio cmd |})])%list
    /\ open_on c' sid.
Proof.
  intros Ho. exists (generateEventId (entropy c (ticks c))), (delivered cmd sid c).
  split; [apply invoke_open; exact Ho|]. split; [reflexivity|].
  split; [apply delivered_wire | apply delivered_open; exact Ho].
Qed.

Lemma command_delivered_when_open_witness :
  exists id c',
    invoke Interrupt open_client = (Ok id, c')
    /\ id = "1700000000000_4fzyo82"
    /\ map (fun m => type (snd m)) (wire c') = ["agent.interrupt"].
Proof.
  destruct (command_delivered_when_open Interrupt open_client 0)
    as (id & c' & Hrun & Hid & Hwire & _); [repeat split; vm_compute; reflexivity|].
  exists id, c'. rewrite Hwire. repeat split; trivial.
Defined.

(** X12: a heartbeat tick sends one [session.keep_alive] when the current
    socket is open; on a client that fails the test of [send] (after a
    closure or a disconnect) it sends nothing and writes the warning. *)
Theorem heartbeat_tick_keeps_alive (c : Client) (h : nat) :
  existsb (Nat.eqb h) (intervals c) = true ->
  exists c',
    step (Heartbeat h) c = Some c'
    /\ (forall sid, open_on c sid ->
          wire c' = (wire c ++ [command sid KeepAlive
                                  (generateEventId (entropy c (ticks c)))])%list)
    /\ (can_send c = false ->
          wire c' = wire c
          /\ console c'
             = (console c ++ [not_connected_warning "session.keep_alive"])%list).
Proof.
  intros Hin. unfold step. rewrite Hin. eexists. split; [reflexivity|].
  change (sendKeepAlive c) with (invoke KeepAlive c). split.
  - intros sid Ho. rewrite (invoke_open KeepAlive c sid Ho). apply delivered_wire.
  - intros Hn. rewrite (invoke_dropped KeepAlive c Hn). split; reflexivity.
Qed.

Lemma heartbeat_tick_keeps_alive_witness :
  exists c',
    step (Heartbeat 0) open_client = Some c'
    /\ map (fun m => type (snd m)) (wire c') = ["session.keep_alive"].
Proof.
  destruct (heartbeat_tick_keeps_alive open_client 0) as (c' & Hstep & Hopen & _);
    [vm_compute; reflexivity|].
  exists c'. split; [exact Hstep|].
  rewrite (Hopen 0) by (repeat split; vm_compute; reflexivity). reflexivity.
Defined.

Lemma any_closure_stops_sending_helper (c : Client) (sid : nat) (code : Z) (c' : Client) :
  step (Close sid code) c = Some c' ->
  isConnected c' = false /\ isConnectionOpen c' = false.
Proof.
  unfold step. destruct (is_live c sid); [|discriminate]. intros H.
  injection H as <-.
  destruct (on_close_fields code (drop_socket sid c)) as (Hc & _).
  cbv zeta in *. split; [exact Hc|].
  unfold isConnectionOpen. rewrite Hc. reflexivity.
Qed.

(** X13: the handlers are bound to the client, not to the socket: when any
    socket of the client reports 'close', the current one or an earlier
    one, the client is marked disconnected and from then on drops every
    command, even if its current socket is open. *)
Theorem any_closure_stops_sending (c : Client) (sid : nat) (code : Z) (c' : Client) :
  step (Close sid code) c = Some c' ->
  isConnected c' = false
  /\ ws c' = ws c
  /\ isConnectionOpen c' = false
  /\ forall cmd, invoke cmd c'
       = (Ok (generateEventId (entropy c' (ticks c'))), dropped cmd c').
Proof.
  unfold step. destruct (is_live c sid); [|discriminate]. intros H.
  injection H as <-.
  destruct (on_close_fields code (drop_socket sid c)) as (Hc & _ & _ & _ & Hw & _).
  cbv zeta in *. split; [exact Hc|]. split; [exact Hw|].
  split; [unfold isConnectionOpen; rewrite Hc; reflexivity|].
  intros cmd. apply invoke_dropped. unfold can_send. rewrite Hc.
  destruct (ws _); reflexivity.
Qed.

Lemma any_closure_stops_sending_witness :
  let c := state_after [Connect; Open 0; Connect; Open 1] (new_client sample_entropy) in
  exists c',
    step (Close 0 1000) c = Some c'
    /\ ws c' = Some 1 /\ readyState c' 1 = OPEN
    /\ isConnected c' = false
    /\ wire (snd (invoke (Speak "AAAA") c')) = [].
Proof.
  intros c.
  exists (state_after [Close 0 1000%Z] c).
  assert (Hstep : step (Close 0 1000) c = Some (state_after [Close 0 1000%Z] c))
    by (vm_compute; reflexivity).
  destruct (any_closure_stops_sending c 0 1000%Z _ Hstep) as (Hc & _ & _ & Hdrop).
  split; [exact Hstep|]. split; [vm_compute; reflexivity|].
  split; [vm_compute; reflexivity|]. split; [exact Hc|].
  rewrite Hdrop. vm_compute. reflexivity.
Defined.

End MoreChannel.

(* ================================================================= *)
(** ** More on the direct controls and the life of a speech *)

Section MoreControls.

Import Bridge.

(** X14: [startListening()] twice in a row on an open channel sends exactly
    one [agent.start_listening]: the first call sends it and sets
    [isListening], the second changes nothing at all. *)
Theorem startListening_twice_sends_once (b : Bridge) (c : HeyGen.Client) (sid : nat) :
  heygenClient b = Some c -> HeyGen.open_on c sid -> isListening b = false ->
  exists b1,
    startListening b = (Ok tt, b1)
    /\ isListening b1 = true
    /\ sent b1
       = (sent b ++ [HeyGen.command sid HeyGen.StartListening
                       (HeyGen.generateEventId (HeyGen.entropy c (HeyGen.ticks c)))])%list
    /\ startListening b1 = (Ok tt, b1).
Proof.
  intros Hc Ho Hl. destruct b as [cl cur lis tm con]. bridge_eval. subst cl lis.
  unfold startListening. bridge_eval. deliver Ho.
  eexists. split; [reflexivity|]. bridge_eval.
  split; [reflexivity|]. split; [|reflexivity].
  unfold sent. bridge_eval. apply delivered_wire.
Qed.

Lemma startListening_twice_sends_once_witness :
  exists b1,
    startListening open_bridge = (Ok tt, b1)
    /\ isListening b1 = true
    /\ map (fun m => HeyGen.type (snd m)) (sent b1) = ["agent.start_listening"]
    /\ startListening b1 = (Ok tt, b1).
Proof.
  destruct (startListening_twice_sends_once open_bridge HeyGen.open_client 0)
    as (b1 & Hrun & Hl & Hsent & Hagain); try (repeat split; vm_compute; reflexivity).
  exists b1. rewrite Hsent. repeat split; trivial.
Defined.

(** X15: [stopListening()] twice in a row on an open channel sends exactly
    one [agent.stop_listening]; the second call changes nothing. *)
Theorem stopListening_twice_sends_once (b : Bridge) (c : HeyGen.Client) (sid : nat) :
  heygenClient b = Some c -> HeyGen.open_on c sid -> isListening b = true ->
  exists b1,
    stopListening b = (Ok tt, b1)
    /\ isListening b1 = false
    /\ sent b1
       = (sent b ++ [HeyGen.command sid HeyGen.StopListening
                       (HeyGen.generateEventId (HeyGen.entropy c (HeyGen.ticks c)))])%list
    /\ stopListening b1 = (Ok tt, b1).
Proof.
  intros Hc Ho Hl. destruct b as [cl cur lis tm con]. bridge_eval. subst cl lis.
  unfold stopListening. bridge_eval. deliver Ho.
  eexists. split; [reflexivity|]. bridge_eval.
  split; [reflexivity|]. split; [|reflexivity].
  unfold sent. bridge_eval. apply delivered_wire.
Qed.

Lemma stopListening_twice_sends_once_witness :
  exists b1,
    stopListening listening_bridge = (Ok tt, b1)
    /\ isListening b1 = false
    /\ map (fun m => HeyGen.type (snd m)) (sent b1) = ["agent.stop_listening"]
    /\ stopListening b1 = (Ok tt, b1).
Proof.
  destruct (stopListening_twice_sends_once listening_bridge HeyGen.open_client 0)
    as (b1 & Hrun & Hl & Hsent & Hagain); try (repeat split; vm_compute; reflexivity).
  exists b1. rewrite Hsent. repeat split; trivial.
Defined.

(** X16: [interrupt()] on an open channel with a speech in flight sends one
    [agent.interrupt] and clears the identifier; a second [interrupt()]
    changes nothing, and so does [interrupt()] with no speech in flight. *)
Theorem interrupt_twice_sends_once (b : Bridge) (c : HeyGen.Client) (sid : nat) :
  heygenClient b = Some c -> HeyGen.open_on c sid ->
  JS.truthy (currentSpeakEventId b) = true ->
  exists b1,
    interrupt b = (Ok tt, b1)
    /\ currentSpeakEventId b1 = None
    /\ isListening b1 = isListening b
    /\ sent b1
       = (sent b ++ [HeyGen.command sid HeyGen.Interrupt
                       (HeyGen.generateEventId (HeyGen.entropy c (HeyGen.ticks c)))])%list
    /\ interrupt b1 = (Ok tt, b1).
Proof.
  intros Hc Ho Hcur. destruct b as [cl cur lis tm con]. bridge_eval. subst cl.
  unfold interrupt. bridge_eval. rewrite Hcur. bridge_eval. deliver Ho.
  eexists. split; [reflexivity|]. bridge_eval.
  split; [reflexivity|]. split; [reflexivity|].
  split; [unfold sent; bridge_eval; apply delivered_wire|].
  change (JS.truthy None) with false. reflexivity.
Qed.

Lemma interrupt_twice_sends_once_witness :
  exists b1,
    interrupt speaking_bridge = (Ok tt, b1)
    /\ currentSpeakEventId b1 = None
    /\ map (fun m => HeyGen.type (snd m)) (sent b1) = ["agent.interrupt"]
    /\ interrupt b1 = (Ok tt, b1).
Proof.
  destruct (interrupt_twice_sends_once speaking_bridge HeyGen.open_client 0)
    as (b1 & Hrun & Hcur & _ & Hsent & Hagain);
    try (repeat split; vm_compute; reflexivity).
  exists b1. rewrite Hsent. repeat split; trivial.
Defined.

(** X17: [destroy()] leaves a bridge that reports the empty state and holds
    no channel; the channel it released has been disconnected; a second
    [destroy()] changes nothing and releases nothing; and every event
    relayed afterwards is skipped. *)
Theorem destroy_is_idempotent (b : Bridge) :
  getState (fst (destroy b)) = empty_state
  /\ heygenClient (fst (destroy b)) = None
  /\ snd (destroy b)
     = match heygenClient b with
       | Some c => Some (HeyGen.disconnect c)
       | None => None
       end
  /\ destroy (fst (destroy b)) = (fst (destroy b), None)
  /\ forall e,
       processOpenAIEvent e (fst (destroy b))
       = (Ok tt, logging (skipped_lines e) (fst (destroy b))).
Proof.
  assert (Hclosed : channel_open (fst (destroy b)) = false)
    by (destruct b as [[c|] cur lis tm con]; reflexivity).
  repeat split; try (destruct b as [[c|] cur lis tm con]; reflexivity).
  intros e. apply closed_channel_skips_every_event_helper. exact Hclosed.
Qed.

(** X18: after a [response.done], the next audio chunk starts a new speech:
    on an open channel with no speech in flight, a chunk, a [response.done]
    and a second chunk send [agent.speak], [agent.speak_end], [agent.speak]
    and leave [currentSpeakEventId] at the identifier of the second
    [agent.speak], the third the channel generated. *)
Theorem next_chunk_after_done_starts_new_speech
    (b : Bridge) (c : HeyGen.Client) (sid : nat) (e1 e2 : OpenAIEvent) :
  heygenClient b = Some c -> HeyGen.open_on c sid ->
  currentSpeakEventId b = None ->
  is_audio_chunk e1 = true -> is_audio_chunk e2 = true ->
  let id k := HeyGen.generateEventId (HeyGen.entropy c (k + HeyGen.ticks c)) in
  exists b',
    process_all [e1; event "response.done"; e2] b = (Ok tt, b')
    /\ currentSpeakEventId b' = Some (id 2)
    /\ sent b'
       = (sent b
          ++ [HeyGen.command sid (HeyGen.Speak (chunk_payload e1)) (id 0);
              HeyGen.command sid (HeyGen.SpeakEnd None) (id 1);
              HeyGen.command sid (HeyGen.Speak (chunk_payload e2)) (id 2)])%list.
Proof.
  intros Hc Ho Hcur He1 He2 id.
  destruct (audio_chunk_step b c sid e1 Hc Ho He1) as (b1 & Hrun1 & Hc1 & Hcur1 & _).
  rewrite Hcur in Hcur1. change (JS.truthy None) with false in Hcur1.
  pose proof (delivered_open (HeyGen.Speak (chunk_payload e1)) sid c Ho) as Ho1.
  destruct (response_done_step b1 _ sid (event "response.done") Hc1 Ho1 eq_refl)
    as (b2 & Hrun2 & Hc2 & Hcur2 & _).
  rewrite Hcur1, generateEventId_truthy in Hc2, Hcur2.
  pose proof (delivered_open (HeyGen.SpeakEnd None) sid _ Ho1) as Ho2.
  destruct (audio_chunk_step b2 _ sid e2 Hc2 Ho2 He2) as (b3 & Hrun3 & Hc3 & Hcur3 & _).
  rewrite Hcur2 in Hcur3. change (JS.truthy None) with false in Hcur3.
  exists b3. cbn [process_all]. unfold bind, ret.
  rewrite Hrun1, Hrun2, Hrun3. split; [reflexivity|].
  rewrite !delivered_entropy, !delivered_ticks in Hcur3.
  split; [exact Hcur3|].
  unfold sent. rewrite Hc3, Hc.
  rewrite !delivered_wire, !delivered_entropy, !delivered_ticks, <- !app_assoc.
  reflexivity.
Qed.

Lemma next_chunk_after_done_starts_new_speech_witness :
  exists b',
    process_all [chunk_A; event "response.done"; chunk_B] open_bridge = (Ok tt, b')
    /\ currentSpeakEventId b' = Some "1700000000002_4fzyo82"
    /\ map (fun m => HeyGen.type (snd m)) (sent b')
       = ["agent.speak"; "agent.speak_end"; "agent.speak"].
Proof.
  destruct (next_chunk_after_done_starts_new_speech open_bridge HeyGen.open_client 0
              chunk_A chunk_B)
    as (b' & Hrun & Hcur & Hsent); try (repeat split; vm_compute; reflexivity).
  exists b'. rewrite Hsent, Hcur. repeat split; trivial.
Defined.

(** X19: [speakText] on an open channel, followed by its callback with
    nothing in between, sends [agent.speak] with an empty payload and then
    [agent.speak_end], stores the first identifier in between and ends with
    no speech in flight and no callback pending. *)
Theorem speakText_then_callback (b : Bridge) (c : HeyGen.Client) (sid : nat) (text : string) :
  heygenClient b = Some c -> HeyGen.open_on c sid ->
  exists b1 b2,
    speakText text b = (Ok tt, b1)
    /\ currentSpeakEventId b1
       = Some (HeyGen.generateEventId (HeyGen.entropy c (HeyGen.ticks c)))
    /\ speak_timers b1 = S (speak_timers b)
    /\ speak_timer_fires b1 = (Ok tt, b2)
    /\ currentSpeakEventId b2 = None
    /\ speak_timers b2 = speak_timers b
    /\ isListening b2 = isListening b
    /\ sent b2
       = (sent b
          ++ [HeyGen.command sid (HeyGen.Speak "")
                (HeyGen.generateEventId (HeyGen.entropy c (HeyGen.ticks c)));
              HeyGen.command sid (HeyGen.SpeakEnd None)
                (HeyGen.generateEventId (HeyGen.entropy c (S (HeyGen.ticks c))))])%list.
Proof.
  intros Hc Ho. destruct b as [cl cur lis tm con]. bridge_eval. subst cl.
  unfold speakText. bridge_eval. deliver Ho.
  eexists. eexists. split; [reflexivity|]. bridge_eval.
  split; [reflexivity|]. split; [reflexivity|].
  unfold speak_timer_fires, speakText_callback. bridge_eval.
  rewrite generateEventId_truthy. bridge_eval.
  unfold on_client_opt. bridge_eval.
  change (HeyGen.sendSpeakEnd None) with (HeyGen.invoke (HeyGen.SpeakEnd None)).
  rewrite (invoke_open _ _ sid (delivered_open _ sid c Ho)). bridge_eval.
  split; [reflexivity|]. repeat (split; [reflexivity|]).
  unfold sent. bridge_eval.
  rewrite !delivered_wire, !delivered_entropy, !delivered_ticks, <- !app_assoc.
  reflexivity.
Qed.

Lemma speakText_then_callback_witness :
  exists b1 b2,
    speakText "hi" open_bridge = (Ok tt, b1)
    /\ speak_timer_fires b1 = (Ok tt, b2)
    /\ currentSpeakEventId b2 = None
    /\ map (fun m => (HeyGen.type (snd m), HeyGen.audio (snd m))) (sent b2)
       = [("agent.speak", Some ""); ("agent.speak_end", None)].
Proof.
  destruct (speakText_then_callback open_bridge HeyGen.open_client 0 "hi")
    as (b1 & b2 & Hrun1 & _ & _ & Hrun2 & Hcur & _ & _ & Hsent);
    try (repeat split; vm_compute; reflexivity).
  exists b1, b2. rewrite Hsent. repeat split; trivial.
Defined.

(** X20: the callback of [speakText] does not check whose speech is in
    flight: on an open channel it ends any speech whose identifier is
    stored, also one that an audio chunk started after the speech of
    [speakText] was interrupted. *)
Theorem callback_ends_whatever_speech_is_in_flight
    (b : Bridge) (c : HeyGen.Client) (sid : nat) :
  heygenClient b = Some c -> HeyGen.open_on c sid ->
  JS.truthy (currentSpeakEventId b) = true ->
  exists b',
    speak_timer_fires b = (Ok tt, b')
    /\ currentSpeakEventId b' = None
    /\ sent b'
       = (sent b ++ [HeyGen.command sid (HeyGen.SpeakEnd None)
                       (HeyGen.generateEventId (HeyGen.entropy c (HeyGen.ticks c)))])%list.
Proof.
  intros Hc Ho Hcur. destruct b as [cl cur lis tm con]. bridge_eval. subst cl.
  unfold speak_timer_fires, speakText_callback. bridge_eval.
  rewrite Hcur. bridge_eval. unfold on_client_opt. bridge_eval.
  change (HeyGen.sendSpeakEnd None) with (HeyGen.invoke (HeyGen.SpeakEnd None)).
  rewrite (invoke_open _ _ sid Ho). bridge_eval.
  eexists. split; [reflexivity|]. split; [reflexivity|].
  unfold sent. bridge_eval. apply delivered_wire.
Qed.

Lemma callback_ends_whatever_speech_is_in_flight_witness :
  exists b',
    speak_timer_fires speaking_bridge = (Ok tt, b')
    /\ currentSpeakEventId b' = None
    /\ map (fun m => HeyGen.type (snd m)) (sent b') = ["agent.speak_end"].
Proof.
  destruct (callback_ends_whatever_speech_is_in_flight speaking_bridge
              HeyGen.open_client 0)
    as (b' & Hrun & Hcur & Hsent); try (repeat split; vm_compute; reflexivity).
  exists b'. rewrite Hsent. repeat split; trivial.
Defined.

End MoreControls.

(* ================================================================= *)
(** ** The state and control routes *)

Section RouteFacts.

Import Routes.

Lemma get_mutate_same (sessions : Sessions) (sessionId : string)
      (b : Bridge.Bridge) (s : SessionData) :
  get sessions sessionId = Some s ->
  get (mutate_bridge sessions sessionId b) sessionId
  = Some {| heygenSessionId := heygenSessionId s; openaiHeyGenBridge := Some b |}.
Proof.
  induction sessions as [|[k v] rest IH]; simpl; [discriminate|].
  destruct (String.eqb k sessionId) eqn:E; simpl; rewrite E.
  - intros H. injection H as <-. reflexivity.
  - exact IH.
Qed.

Lemma get_mutate_other (sessions : Sessions) (sessionId other : string)
      (b : Bridge.Bridge) :
  other <> sessionId ->
  get (mutate_bridge sessions sessionId b) other = get sessions other.
Proof.
  intros Hne. induction sessions as [|[k v] rest IH]; simpl; [reflexivity|].
  destruct (String.eqb k sessionId) eqn:E; simpl.
  - apply String.eqb_eq in E. subst k.
    destruct (String.eqb sessionId other) eqn:E'; [|reflexivity].
    apply String.eqb_eq in E'. congruence.
  - rewrite IH. reflexivity.
Qed.

(** The control route either refuses the request and leaves the store
    alone, or answers from the result of one bridge method. *)
Lemma control_route_cases (sessions : Sessions) (sessionId : string)
      (action text : option string) :
  (snd (control_route sessions sessionId action text) = sessions
   /\ (status (fst (control_route sessions sessionId action text)) = 404
       \/ status (fst (control_route sessions sessionId action text)) = 400))
  \/ exists s r,
       get sessions sessionId = Some s
       /\ control_route sessions sessionId action text = answer sessions sessionId r.
Proof.
  unfold control_route, bridge_of.
  destruct (get sessions sessionId) as [s|] eqn:Hget; [|left; split; auto].
  destruct (openaiHeyGenBridge s) as [b|]; [|left; split; auto].
  destruct action as [a|]; [|left; split; auto].
  destruct (String.eqb a "speak").
  { destruct (JS.when_truthy text); [right; eauto | left; split; auto]. }
  destruct (String.eqb a "interrupt"); [right; eauto|].
  destruct (String.eqb a "start_listening"); [right; eauto|].
  destruct (String.eqb a "stop_listening"); [right; eauto|].
  left; split; auto.
Qed.


(** X22: after the control route has answered 200, the state route reports,
    for the same session, exactly the state that answer carried, with
    [hasWebSocket] true. *)
Theorem state_route_reports_control_result (sessions : Sessions) (sessionId : string)
    (action text : option string) (st : Bridge.State.t) :
  fst (control_route sessions sessionId action text)
  = {| status := 200; body := success_json st |} ->
  state_route (snd (control_route sessions sessionId action text)) sessionId
  = {| status := 200; body := state_json true st |}.
Proof.
  destruct (control_route_cases sessions sessionId action text)
    as [[_ [H|H]] | (s & [[[]|m] b'] & Hget & ->)]; simpl.
  - intros E. rewrite E in H. discriminate H.
  - intros E. rewrite E in H. discriminate H.
  - intros E. injection E as <-. unfold state_route.
    rewrite (get_mutate_same sessions sessionId b' s Hget). reflexivity.
  - discriminate.
Qed.

Lemma state_route_reports_control_result_witness :
  state_route
    (snd (control_route sample_sessions "session_1" (Some "start_listening") None))
    "session_1"
  = {| status := 200;
       body := state_json true
                 {| Bridge.State.isConnected := true;
                    Bridge.State.isSpeaking := false;
                    Bridge.State.isListening := true;
                    Bridge.State.currentSpeakEventId := None |} |}.
Proof.
  apply state_route_reports_control_result. vm_compute. reflexivity.
Defined.

(** X23: sessions are isolated: a control request for one session never
    changes what the state route answers for another. *)
Theorem control_does_not_touch_other_sessions (sessions : Sessions)
    (sessionId other : string) (action text : option string) :
  other <> sessionId ->
  state_route (snd (control_route sessions sessionId action text)) other
  = state_route sessions other.
Proof.
  intros Hne.
  destruct (control_route_cases sessions sessionId action text)
    as [[-> _] | (s & [res b'] & _ & ->)]; [reflexivity|].
  unfold state_route.
  destruct res; simpl; rewrite (get_mutate_other sessions sessionId other b' Hne);
    reflexivity.
Qed.

Lemma control_does_not_touch_other_sessions_witness :
  state_route
    (snd (control_route sample_sessions "session_1" (Some "speak") (Some "hi")))
    "session_2"
  = {| status := 200; body := state_json false Bridge.empty_state |}.
Proof.
  rewrite control_does_not_touch_other_sessions by discriminate.
  reflexivity.
Defined.

End RouteFacts.

(* ================================================================= *)
(** ** The session request *)

Section SessionBody.

Import HeygenApi.



End SessionBody.

(* ================================================================= *)
(** ** The events shown *)

Section EventsShown.

Import EventDisplay.

(** X25: for a positive [maxEvents] the component shows the latest
    [maxEvents] events, newest first: the events are the hidden older ones
    followed by the shown ones in their original order, at most [maxEvents]
    are shown, and the badge counts the hidden ones, appearing exactly when
    there are some. *)
Theorem displayEvents_shows_latest {A} (maxEvents : Z) (events : list A) :
  (0 < maxEvents)%Z ->
  exists hidden,
    events = (hidden ++ List.rev (displayEvents maxEvents events))%list
    /\ Z.of_nat (length (displayEvents maxEvents events))
       = Z.min maxEvents (Z.of_nat (length events))
    /\ older_badge maxEvents events
       = match hidden with
         | [] => None
         | _ => Some (Z.of_nat (length hidden))
         end.
Proof.
  intros Hpos. unfold displayEvents, slice, older_badge. cbv zeta.
  assert ((- maxEvents <? 0)%Z = true) as -> by (apply Z.ltb_lt; lia).
  set (len := Z.of_nat (length events)).
  set (k := Z.to_nat (Z.max (len + - maxEvents) 0)).
  exists (firstn k events).
  rewrite List.rev_involutive, firstn_skipn. split; [reflexivity|].
  rewrite length_rev, length_skipn.
  assert (Hk : (k <= length events)%nat) by (subst k len; lia).
  split; [subst k len; lia|].
  pose proof (length_firstn k events) as Hlen.
  rewrite Nat.min_l in Hlen by exact Hk.
  destruct (Z.gtb_spec len maxEvents) as [Hgt|Hle].
  - destruct (firstn k events) eqn:E.
    + simpl in Hlen. subst k len. lia.
    + rewrite Hlen. f_equal. subst k len. lia.
  - destruct (firstn k events) eqn:E; [reflexivity|].
    simpl in Hlen. subst k len. lia.
Qed.

Lemma displayEvents_shows_latest_witness :
  exists hidden,
    [1; 2; 3; 4; 5]%nat = (hidden ++ List.rev (displayEvents 2 [1; 2; 3; 4; 5]%nat))%list
    /\ displayEvents 2 [1; 2; 3; 4; 5]%nat = [5; 4]%nat
    /\ older_badge 2 [1; 2; 3; 4; 5]%nat = Some 3%Z.
Proof.
  destruct (displayEvents_shows_latest 2 [1; 2; 3; 4; 5]%nat) as (hidden & He & _ & Hb);
    [lia|].
  exists hidden. split; [exact He|]. split; [reflexivity|].
  vm_compute. reflexivity.
Defined.

(** X26: with [maxEvents] zero or negative nothing is capped as one would
    expect: [slice(-maxEvents)] then takes a non-negative start, so with 0
    every event is shown (while the badge announces all of them as older)
    and with [-k] all but the oldest [k] are shown. *)
Theorem displayEvents_without_positive_cap {A} (maxEvents : Z) (events : list A) :
  (maxEvents <= 0)%Z ->
  displayEvents maxEvents events
  = List.rev (skipn (Z.to_nat (- maxEvents)) events)
  /\ (maxEvents = 0%Z ->
        displayEvents maxEvents events = List.rev events
        /\ (events <> [] ->
              older_badge maxEvents events = Some (Z.of_nat (length events)))).
Proof.
  intros Hle. unfold displayEvents, slice, older_badge. cbv zeta.
  assert ((- maxEvents <? 0)%Z = false) as -> by (apply Z.ltb_ge; lia).
  split.
  - f_equal.
    destruct (Z.min_spec (- maxEvents) (Z.of_nat (length events)))
      as [[_ ->] | [Hge ->]]; [reflexivity|].
    rewrite Nat2Z.id, !skipn_all2; [reflexivity | lia | lia].
  - intros ->. simpl Z.opp.
    rewrite Z.min_l by lia. split; [reflexivity|].
    intros Hne. destruct events; [contradiction|].
    rewrite Z.sub_0_r.
    destruct (Z.gtb_spec (Z.of_nat (length (a :: events))) 0); [reflexivity|].
    simpl length in *. lia.
Qed.

Lemma displayEvents_without_positive_cap_witness :
  displayEvents 0 [1; 2; 3]%nat = [3; 2; 1]%nat
  /\ older_badge 0 [1; 2; 3]%nat = Some 3%Z.
Proof.
  destruct (displayEvents_without_positive_cap 0 [1; 2; 3]%nat) as [_ H]; [lia|].
  destruct (H eq_refl) as [Hd Hb]. split; [exact Hd|].
  apply Hb. discriminate.
Defined.

End EventsShown.

(* ================================================================= *)
(** ** Provider events and outages *)

Section ProviderEvents.

Import Bridge.

(** X27: a provider event never calls into the channel and never changes
    [isListening] or the channel; [agent.speak_ended] and
    [agent.speak_interrupted] clear [currentSpeakEventId], and every other
    event name leaves it as it was. *)
Theorem provider_events_only_clear_speech (name : string) (b : Bridge) :
  exists b',
    listener name b = (Ok tt, b')
    /\ heygenClient b' = heygenClient b
    /\ isListening b' = isListening b
    /\ speak_timers b' = speak_timers b
    /\ currentSpeakEventId b'
       = (if String.eqb name "agent.speak_ended"
             || String.eqb name "agent.speak_interrupted"
          then None else currentSpeakEventId b).
Proof.
  destruct b as [cl cur lis tm con]. unfold listener.
  repeat match goal with
         | |- context [String.eqb name ?l] =>
             destruct (String.eqb name l) eqn:?; bridge_cbn
         end;
    try (eexists; repeat split; reflexivity);
    exfalso;
    repeat match goal with
           | H : String.eqb name _ = true |- _ => apply String.eqb_eq in H
           end;
    congruence.
Qed.

(** X28: when a socket of the attached channel reports 'close', the bridge
    keeps its speech identifier and its listening flag but reports
    [isConnected] false, and from then on skips every event: a
    [response.done] that arrives during the outage does not end the speech,
    so [isSpeaking] stays as it was. *)
Theorem outage_freezes_bridge_state
    (b b' : Bridge) (sid : nat) (code : Z) :
  channel_step (HeyGen.Close sid code) b = Some b' ->
  State.isConnected (getState b') = false
  /\ State.isSpeaking (getState b') = State.isSpeaking (getState b)
  /\ State.currentSpeakEventId (getState b') = State.currentSpeakEventId (getState b)
  /\ State.isListening (getState b') = State.isListening (getState b)
  /\ forall e,
       exists b'',
         processOpenAIEvent e b' = (Ok tt, b'')
         /\ sent b'' = sent b'
         /\ getState b'' = getState b'.
Proof.
  unfold channel_step. destruct (heygenClient b) as [c|] eqn:Hc; [|discriminate].
  destruct (HeyGen.step (HeyGen.Close sid code) c) as [c'|] eqn:Hstep; [|discriminate].
  intros H. injection H as <-.
  destruct (any_closure_stops_sending_helper c sid code c' Hstep) as [_ Hclosed].
  assert (Hdown : channel_open (set_heygenClient (Some c') b) = false)
    by (destruct b; exact Hclosed).
  split; [destruct b; exact Hclosed|].
  repeat (split; [destruct b; reflexivity|]).
  intros e. eexists.
  split; [apply closed_channel_skips_every_event_helper; exact Hdown|].
  split; reflexivity.
Qed.

Lemma outage_freezes_bridge_state_witness :
  exists b',
    channel_step (HeyGen.Close 0 1006) speaking_bridge = Some b'
    /\ State.isConnected (getState b') = false
    /\ State.isSpeaking (getState b') = true
    /\ exists b'',
         processOpenAIEvent (event "response.done") b' = (Ok tt, b'')
         /\ State.isSpeaking (getState b'') = true.
Proof.
  exists (match channel_step (HeyGen.Close 0 1006) speaking_bridge with
          | Some b' => b' | None => speaking_bridge end).
  assert (Hstep : channel_step (HeyGen.Close 0 1006) speaking_bridge
                  = Some (match channel_step (HeyGen.Close 0 1006) speaking_bridge with
                          | Some b' => b' | None => speaking_bridge end))
    by (vm_compute; reflexivity).
  destruct (outage_freezes_bridge_state _ _ _ _ Hstep) as (Hc & Hs & _ & _ & Hskip).
  split; [exact Hstep|]. split; [exact Hc|]. split; [exact Hs|].
  destruct (Hskip (event "response.done")) as (b'' & Hrun & _ & Hstate).
  exists b''. split; [exact Hrun|]. rewrite Hstate. exact Hs.
Defined.

End ProviderEvents.
